(** * ffmpeg-screenshot: time-range resolution and screenshot scheduling

    A shallow embedding of [main.py]: the literal-time parser [parse_time],
    the chapter lookup [get_chapter_time], and the driver
    [generate_screenshots] with its scheduling loop, file names and the
    effects it issues (directory creation, extraction calls). *)

From Stdlib Require Import ZArith QArith Qround Qabs Qpower List String Ascii Bool Lia Lqa.
Import ListNotations.

Local Open Scope string_scope.
Local Open Scope list_scope.
Local Open Scope Z_scope.

(** ** Exceptions and results

    Every exception the modelled code can raise; [ffmpeg_Error] is the one
    class the driver reports apart from the others. *)

Inductive exn : Type :=
| ValueError
| IndexError
| KeyError
| TypeError
| ZeroDivisionError
| OverflowError
| OSError
| ffmpeg_Error.

Inductive result (A : Type) : Type :=
| Ok (a : A)
| Raise (e : exn).

Arguments Ok {A} a.
Arguments Raise {A} e.

Definition bind {A B : Type} (r : result A) (k : A -> result B) : result B :=
  match r with
  | Ok a => k a
  | Raise e => Raise e
  end.

Notation "x <- r ;; k" := (bind r (fun x => k))
  (at level 61, r at next level, right associativity).

Definition is_ok {A : Type} (r : result A) : bool :=
  match r with Ok _ => true | Raise _ => false end.

(** ** Strings

    A [str] is modelled by [string]: a sequence of code points below 256.
    In that range the decimal digits are the ASCII ones, and the white space
    that [int] skips is 0x09-0x0d, 0x20, 0x85 and 0xa0. *)

Module PyStr.

Definition code (c : ascii) : Z := Z.of_N (N_of_ascii c).

Definition is_digit (c : ascii) : bool := (48 <=? code c) && (code c <=? 57).

Definition digit_value (c : ascii) : Z := code c - 48.

Definition is_space (c : ascii) : bool :=
  ((9 <=? code c) && (code c <=? 13)) || (code c =? 32)
  || (code c =? 133) || (code c =? 160).

Definition is_underscore (c : ascii) : bool := code c =? 95.

(** [s.split(sep)] for a one-character separator. *)
Fixpoint split (sep : ascii) (s : string) : list string :=
  match s with
  | EmptyString => [EmptyString]
  | String c s' =>
      if Ascii.eqb c sep then EmptyString :: split sep s'
      else match split sep s' with
           | [] => [String c EmptyString]
           | w :: ws => String c w :: ws
           end
  end.

Fixpoint lstrip (s : string) : string :=
  match s with
  | String c s' => if is_space c then lstrip s' else s
  | EmptyString => EmptyString
  end.

Fixpoint all_space (s : string) : bool :=
  match s with
  | String c s' => is_space c && all_space s'
  | EmptyString => true
  end.

(** The digit scanner of [int]: digits, with single underscores between
    them; [prev_us] tells that the previous character was an underscore.
    Returns the value read and the unread rest. *)
Fixpoint scan_digits (acc : Z) (prev_us : bool) (s : string) : option (Z * string) :=
  match s with
  | String c s' =>
      if is_digit c then scan_digits (10 * acc + digit_value c) false s'
      else if is_underscore c then
             if prev_us then None else scan_digits acc true s'
           else if prev_us then None else Some (acc, s)
  | EmptyString => if prev_us then None else Some (acc, s)
  end.

Definition split_sign (s : string) : Z * string :=
  match s with
  | String "+" r => (1, r)
  | String "-" r => (-1, r)
  | _ => (1, s)
  end.

(** [int(s)] in base 10: leading white space, an optional sign, at least one
    digit first, digits and single underscores, trailing white space. *)
Definition int (s : string) : result Z :=
  let '(sign, body) := split_sign (lstrip s) in
  match body with
  | String c _ =>
      if is_digit c then
        match scan_digits 0 false body with
        | Some (v, rest) => if all_space rest then Ok (sign * v) else Raise ValueError
        | None => Raise ValueError
        end
      else Raise ValueError
  | EmptyString => Raise ValueError
  end.

(** [str(n)] for an integer. *)
Definition digit_char (d : Z) : ascii := ascii_of_N (Z.to_N (48 + d)).

Fixpoint digits_fuel (fuel : nat) (n : Z) (acc : string) : string :=
  match fuel with
  | O => acc
  | S fuel' =>
      let acc' := String (digit_char (n mod 10)) acc in
      if n <? 10 then acc' else digits_fuel fuel' (n / 10) acc'
  end.

Definition str_nonneg (n : Z) : string :=
  digits_fuel (S (Z.to_nat (Z.log2 n))) n EmptyString.

Definition str (n : Z) : string :=
  if n <? 0 then String "-" (str_nonneg (- n)) else str_nonneg n.

Definition len (s : string) : Z := Z.of_nat (String.length s).

Fixpoint zeros (n : nat) : string :=
  match n with
  | O => EmptyString
  | S n' => String "0" (zeros n')
  end.

(** [s.zfill(width)]: zeros go after a leading sign; nothing is cut. *)
Definition zfill (s : string) (width : Z) : string :=
  let pad := zeros (Z.to_nat (width - len s)) in
  match s with
  | String "+" r => String "+" (pad ++ r)%string
  | String "-" r => String "-" (pad ++ r)%string
  | _ => (pad ++ s)%string
  end.

End PyStr.

(** ** [parse_time] *)

(** [re.match(r"^([0-9]{2}:){2}[0-9]{2}$", s)]: eight characters, and [$]
    also matches just before one final newline. *)
Definition re_match_clock (s : string) : bool :=
  match s with
  | String h1 (String h2 (String c1 (String m1 (String m2
      (String c2 (String s1 (String s2 rest))))))) =>
      PyStr.is_digit h1 && PyStr.is_digit h2 && Ascii.eqb c1 ":"
      && PyStr.is_digit m1 && PyStr.is_digit m2 && Ascii.eqb c2 ":"
      && PyStr.is_digit s1 && PyStr.is_digit s2
      && (String.eqb rest "" || String.eqb rest (String "010" ""))
  | _ => false
  end.

Fixpoint map_result {A B : Type} (f : A -> result B) (l : list A) : result (list B) :=
  match l with
  | [] => Ok []
  | a :: l' => b <- f a ;; bs <- map_result f l' ;; Ok (b :: bs)
  end.

Definition parse_time (time_str : string) : result Z :=
  if re_match_clock time_str then
    parts <- map_result PyStr.int (PyStr.split ":" time_str) ;;
    match parts with
    | [h; m; s] => Ok (h * 3600 + m * 60 + s)
    | _ => Raise ValueError
    end
  else PyStr.int time_str.

(** ** Numbers

    An [int] is a [Z].  A [float] is a binary64 value: a finite one is given
    by the rational it denotes (the two zeros are not told apart: no
    operation of the program distinguishes them), and every arithmetic
    result is rounded to the nearest binary64 value, ties to even. *)

Module PyNum.

Inductive float : Type :=
| Fin (q : Q)
| Inf (negative : bool)
| NaN.

Inductive number : Type :=
| PInt (z : Z)
| PFloat (f : float).

(** [floor (log2 q)] for a positive rational. *)
Definition ilog2 (q : Q) : Z :=
  let l := Z.log2 (Qnum q) - Z.log2 (Zpos (Qden q)) in
  if Qle_bool (Qpower 2 l) q then l else l - 1.

Definition round_half_even (m : Q) : Z :=
  let f := Qfloor m in
  match Qcompare (m - inject_Z f) (1 # 2) with
  | Lt => f
  | Gt => f + 1
  | Eq => if Z.even f then f else f + 1
  end.

(** The exponent of the last place of a positive [q]: 53 significant bits,
    and no finer than [2^-1074] (the subnormal range). *)
Definition ulp_exp (q : Q) : Z := Z.max (ilog2 q - 52) (-1074).

Definition round_pos (q : Q) : Q :=
  let e := ulp_exp q in
  Qred (inject_Z (round_half_even (q / Qpower 2 e)) * Qpower 2 e).

Definition round_Q (q : Q) : Q :=
  match Qcompare q 0 with
  | Eq => 0%Q
  | Gt => round_pos q
  | Lt => Qopp (round_pos (Qopp q))
  end.

(** Rounding to binary64; from [2^1024] on, the result is an infinity. *)
Definition rnd (q : Q) : float :=
  let r := round_Q q in
  if Qle_bool (Qpower 2 1024) (Qabs r) then Inf (negb (Qle_bool 0 r)) else Fin r.

Definition finite (f : float) : result float :=
  match f with
  | Inf _ => Raise OverflowError
  | _ => Ok f
  end.

(** An operand of a float operation: an [int] is converted first, and the
    conversion raises when the integer is out of range. *)
Definition to_float (n : number) : result float :=
  match n with
  | PInt z => finite (rnd (inject_Z z))
  | PFloat f => Ok f
  end.

Definition is_zero (q : Q) : bool := Qeq_bool q 0.

Definition fsub (a b : float) : float :=
  match a, b with
  | NaN, _ | _, NaN => NaN
  | Fin x, Fin y => rnd (x - y)
  | Inf s, Inf t => if Bool.eqb s t then NaN else Inf s
  | Inf s, Fin _ => Inf s
  | Fin _, Inf t => Inf (negb t)
  end.

Definition negative (q : Q) : bool := negb (Qle_bool 0 q).

(** [a / b] on floats; Python raises on a zero divisor. *)
Definition fdiv (a b : float) : result float :=
  match a, b with
  | NaN, Fin y => if is_zero y then Raise ZeroDivisionError else Ok NaN
  | Inf s, Fin y =>
      if is_zero y then Raise ZeroDivisionError else Ok (Inf (xorb s (negative y)))
  | Fin x, Fin y => if is_zero y then Raise ZeroDivisionError else Ok (rnd (x / y))
  | Fin _, Inf _ => Ok (Fin 0)
  | _, _ => Ok NaN
  end.

(** [a - b] *)
Definition sub (a b : number) : result number :=
  match a, b with
  | PInt x, PInt y => Ok (PInt (x - y))
  | _, _ => x <- to_float a ;; y <- to_float b ;; Ok (PFloat (fsub x y))
  end.

(** [a / b]: the quotient of two integers is rounded once, and raises when
    it is out of range. *)
Definition truediv (a b : number) : result number :=
  match a, b with
  | PInt x, PInt y =>
      if y =? 0 then Raise ZeroDivisionError
      else f <- finite (rnd (inject_Z x / inject_Z y)) ;; Ok (PFloat f)
  | _, _ => x <- to_float a ;; y <- to_float b ;; f <- fdiv x y ;; Ok (PFloat f)
  end.

(** [math.ceil] and [math.floor] *)
Definition ceil (n : number) : result Z :=
  match n with
  | PInt z => Ok z
  | PFloat (Fin q) => Ok (Qceiling q)
  | PFloat (Inf _) => Raise OverflowError
  | PFloat NaN => Raise ValueError
  end.

Definition floor (n : number) : result Z :=
  match n with
  | PInt z => Ok z
  | PFloat (Fin q) => Ok (Qfloor q)
  | PFloat (Inf _) => Raise OverflowError
  | PFloat NaN => Raise ValueError
  end.

(** Truth value of a float: only zero is false. *)
Definition truthy (f : float) : bool :=
  match f with
  | Fin q => negb (is_zero q)
  | _ => true
  end.

(** The rational a finite number denotes. *)
Definition value (n : number) : option Q :=
  match n with
  | PInt z => Some (inject_Z z)
  | PFloat (Fin q) => Some q
  | PFloat _ => None
  end.

(** [a == b] on numbers. *)
Definition eqb (a b : number) : bool :=
  match a, b with
  | PFloat NaN, _ | _, PFloat NaN => false
  | PFloat (Inf s), PFloat (Inf t) => Bool.eqb s t
  | PFloat (Inf _), _ | _, PFloat (Inf _) => false
  | _, _ =>
      match value a, value b with
      | Some x, Some y => Qeq_bool x y
      | _, _ => false
      end
  end.

End PyNum.

Import PyNum.

(** ** Built-in sequences *)

Module Py.

(** [l[i]], with negative indices counted from the end. *)
Definition getitem {A : Type} (l : list A) (i : Z) : result A :=
  let n := Z.of_nat (List.length l) in
  let j := if i <? 0 then i + n else i in
  if (0 <=? j) && (j <? n) then
    match nth_error l (Z.to_nat j) with
    | Some a => Ok a
    | None => Raise IndexError
    end
  else Raise IndexError.

(** [len(range(start, stop, step))], as the range object computes it. *)
Definition range_length (start stop step : Z) : Z :=
  let '(lo, hi, st) := if 0 <? step then (start, stop, step) else (stop, start, - step) in
  if hi <=? lo then 0 else (hi - lo - 1) / st + 1.

Definition Zseq (n : Z) : list Z := List.map Z.of_nat (List.seq 0 (Z.to_nat n)).

(** [range(start, stop, step)]: item [k] is [start + k * step]. *)
Definition range (start stop step : Z) : result (list Z) :=
  if step =? 0 then Raise ValueError
  else Ok (List.map (fun k => start + k * step) (Zseq (range_length start stop step))).

Fixpoint enumerate {A : Type} (l : list A) (start : Z) : list (Z * A) :=
  match l with
  | [] => []
  | a :: l' => (start, a) :: enumerate l' (start + 1)
  end.

End Py.

(** ** Chapters and [get_chapter_time] *)

Module Chapter.

(** A chapter of the probe: [start_time] and [end_time] as [float] reads
    them; [tags] may be missing, and may lack a title. *)
Record t : Type := mk {
  start_time : float;
  end_time : float;
  tags : option (option string)
}.

End Chapter.

Inductive key : Type := start_time_key | end_time_key.

Definition chapter_field (c : Chapter.t) (k : key) : float :=
  match k with
  | start_time_key => Chapter.start_time c
  | end_time_key => Chapter.end_time c
  end.

(** [chapter["tags"]["title"]] *)
Definition chapter_title (c : Chapter.t) : result string :=
  match Chapter.tags c with
  | Some (Some title) => Ok title
  | _ => Raise KeyError
  end.

Definition truthy_int (n : option Z) : bool :=
  match n with
  | Some z => negb (z =? 0)
  | None => false
  end.

Definition truthy_str (s : option string) : bool :=
  match s with
  | Some s => negb (String.eqb s "")
  | None => false
  end.

Fixpoint scan_chapters (chapters : list Chapter.t) (chapter_name : string) (k : key)
  : result (option float) :=
  match chapters with
  | [] => Ok None
  | chapter :: rest =>
      title <- chapter_title chapter ;;
      if String.eqb title chapter_name then Ok (Some (chapter_field chapter k))
      else scan_chapters rest chapter_name k
  end.

Definition get_chapter_time (chapters : list Chapter.t) (chapter_num : option Z)
    (chapter_name : option string) (k : key) : result (option float) :=
  if truthy_int chapter_num then
    chapter <- Py.getitem chapters (match chapter_num with Some n => n | None => 0 end - 1) ;;
    Ok (Some (chapter_field chapter k))
  else if truthy_str chapter_name then
    scan_chapters chapters (match chapter_name with Some s => s | None => "" end) k
  else Ok None.

(** ** The command line *)

Module Args.

Record t : Type := mk {
  in_file : string;
  print_chapters : bool;
  interval : Z;
  outpath : option string;
  start_time : string;
  start_chapter_number : option Z;
  start_chapter_name : option string;
  end_time : option string;
  end_chapter_number : option Z;
  end_chapter_name : option string;
  verbose : bool;
  simulate : bool
}.

End Args.

(** ** The scheduling loop and the file names *)

(** [math.ceil((end_time - start_time) / interval)] *)
Definition max_count_of (start_time end_time : number) (interval : Z) : result Z :=
  time_range <- PyNum.sub end_time start_time ;;
  quotient <- PyNum.truediv time_range (PInt interval) ;;
  PyNum.ceil quotient.

(** [enumerate(range(math.ceil(start_time), math.floor(end_time), interval), 1)] *)
Definition schedule (start_time end_time : number) (interval : Z) : result (list (Z * Z)) :=
  first <- PyNum.ceil start_time ;;
  stop <- PyNum.floor end_time ;;
  timestamps <- Py.range first stop interval ;;
  Ok (Py.enumerate timestamps 1).

(** [f"{stem}_{str(count).zfill(len(str(max_count)))}.png"] *)
Definition out_file_name (stem : string) (count max_count : Z) : string :=
  (stem ++ "_" ++ PyStr.zfill (PyStr.str count) (PyStr.len (PyStr.str max_count)) ++ ".png")%string.

(** ** Effects

    What a run does to the outside world, in the order it does it. *)

Inductive message : Type :=
| chapter_line (idx : Z) (start_time : float) (title : string)
| input_file_line (path : string)
| output_directory_line (path : string)
| start_time_line (start_time : number)
| end_time_line (end_time : number)
| interval_line (interval : Z)
| total_screenshots_line (max_count : Z).

Inductive event : Type :=
| probed (in_file : string)
| printed (m : message)
| mkdir (path : string)
| progress (count timestamp : Z)
| ffmpeg_run (in_file : string) (ss : Z) (out_fullpath : string)
| error_printed (e : exn).

(** How a run ends: the function returns, or the process exits. *)
Inductive ending : Type :=
| returned
| exited (code : Z).

(** An effectful computation: the events so far and either a value, an
    exception, or [sys.exit]. *)
Inductive answer (A : Type) : Type :=
| value_of (a : A)
| raised (e : exn)
| sys_exit (code : Z).

Arguments value_of {A} a.
Arguments raised {A} e.
Arguments sys_exit {A} code.

Definition is_run (ev : event) : bool :=
  match ev with ffmpeg_run _ _ _ => true | _ => false end.

Definition is_progress (ev : event) : bool :=
  match ev with progress _ _ => true | _ => false end.

(** Neither an extraction nor a step of the loop. *)
Definition quiet (ev : event) : Prop := is_run ev = false /\ is_progress ev = false.

Definition IO (A : Type) : Type := list event * answer A.

Definition ret {A : Type} (a : A) : IO A := ([], value_of a).

Definition and_then {A B : Type} (m : IO A) (k : A -> IO B) : IO B :=
  match m with
  | (t, value_of a) => (t ++ fst (k a), snd (k a))
  | (t, raised e) => (t, raised e)
  | (t, sys_exit c) => (t, sys_exit c)
  end.

Definition emit (ev : event) : IO unit := ([ev], value_of tt).

Definition lift {A : Type} (r : result A) : IO A :=
  match r with
  | Ok a => ([], value_of a)
  | Raise e => ([], raised e)
  end.

Notation "x <~ m ;; k" := (and_then m (fun x => k))
  (at level 61, m at next level, right associativity).
Notation "m ;;; k" := (and_then m (fun _ => k))
  (at level 61, right associativity).

Fixpoint for_each {A : Type} (l : list A) (body : A -> IO unit) : IO unit :=
  match l with
  | [] => ret tt
  | a :: l' => body a ;;; for_each l' body
  end.

Definition when (b : bool) (m : IO unit) : IO unit := if b then m else ret tt.

(** What the probe returns: the chapter list and [float] of the duration. *)
Record probe_data : Type := mk_probe {
  chapters : list Chapter.t;
  duration : float
}.

Section Driver.

(** [pathlib]: [Path(p).stem], [Path(p).parent] and [p / q], on path strings. *)
Variable stem : string -> string.
Variable parent : string -> string.
Variable joinpath : string -> string -> string.

(** The outside world: the prober, whether a directory can be created, and
    whether the extractor succeeds on a call. *)
Variable probe : string -> result probe_data.
Variable mkdir_ok : string -> bool.
Variable run_ok : string -> Z -> string -> bool.

Definition ensure_directory (path : string) : IO unit :=
  if mkdir_ok path then emit (mkdir path) else lift (Raise OSError).

(** [get_chapter_time(...) or parse_time(args.start_time)] *)
Definition start_time_of (chapters : list Chapter.t) (args : Args.t) : result number :=
  looked_up <- get_chapter_time chapters (Args.start_chapter_number args)
                 (Args.start_chapter_name args) start_time_key ;;
  match looked_up with
  | Some f =>
      if PyNum.truthy f then Ok (PFloat f)
      else z <- parse_time (Args.start_time args) ;; Ok (PInt z)
  | None => z <- parse_time (Args.start_time args) ;; Ok (PInt z)
  end.

(** The three-way choice of the end time; it may be [None]. *)
Definition end_time_of (chapters : list Chapter.t) (duration : float) (args : Args.t)
  : result (option number) :=
  if truthy_int (Args.end_chapter_number args) || truthy_str (Args.end_chapter_name args) then
    looked_up <- get_chapter_time chapters (Args.end_chapter_number args)
                   (Args.end_chapter_name args) end_time_key ;;
    Ok (option_map PFloat looked_up)
  else if truthy_str (Args.end_time args) then
    z <- parse_time (match Args.end_time args with Some s => s | None => "" end) ;;
    Ok (Some (PInt z))
  else Ok (Some (PFloat duration)).

Definition print_chapter_lines (chapters : list Chapter.t) : IO unit :=
  for_each (Py.enumerate chapters 1) (fun '(idx, chapter) =>
    match Chapter.tags chapter with
    | Some tags =>
        emit (printed (chapter_line idx (Chapter.start_time chapter)
                         (match tags with Some title => title | None => "" end)))
    | None => lift (Raise KeyError)
    end).

Definition some_or_type_error {A : Type} (o : option A) : result A :=
  match o with
  | Some a => Ok a
  | None => Raise TypeError
  end.

(** [Path(args.outpath) if args.outpath else in_file.parent / "screenshots"] *)
Definition out_path_of (args : Args.t) : string :=
  if truthy_str (Args.outpath args)
  then match Args.outpath args with Some o => o | None => "" end
  else joinpath (parent (Args.in_file args)) "screenshots".

(** The body of the [try] block. *)
Definition body (args : Args.t) : IO unit :=
  let in_file := Args.in_file args in
  emit (probed in_file) ;;;
  p <~ lift (probe in_file) ;;
  let chapters := chapters p in
  let duration := duration p in
  when (Args.print_chapters args)
    (print_chapter_lines chapters ;;; ([], sys_exit 0)) ;;;
  let out_path := out_path_of args in
  ensure_directory out_path ;;;
  start_time <~ lift (start_time_of chapters args) ;;
  end_time_opt <~ lift (end_time_of chapters duration args) ;;
  end_time <~ lift (some_or_type_error end_time_opt) ;;
  max_count <~ lift (max_count_of start_time end_time (Args.interval args)) ;;
  when (Args.verbose args || Args.simulate args)
    (emit (printed (input_file_line in_file)) ;;;
     emit (printed (output_directory_line out_path)) ;;;
     emit (printed (start_time_line start_time)) ;;;
     emit (printed (end_time_line end_time)) ;;;
     emit (printed (interval_line (Args.interval args))) ;;;
     emit (printed (total_screenshots_line max_count))) ;;;
  entries <~ lift (schedule start_time end_time (Args.interval args)) ;;
  for_each entries (fun '(count, timestamp) =>
    emit (progress count timestamp) ;;;
    if Args.simulate args then ret tt
    else
      let out_file := out_file_name (stem in_file) count max_count in
      let out_fullpath := joinpath out_path out_file in
      emit (ffmpeg_run in_file timestamp out_fullpath) ;;;
      if run_ok in_file timestamp out_fullpath then ret tt
      else lift (Raise ffmpeg_Error)).

(** The [try] block with its two handlers: an exception is reported and the
    process exits with 1; [sys.exit] passes through. *)
Definition generate_screenshots (args : Args.t) : list event * ending :=
  match body args with
  | (t, value_of _) => (t, returned)
  | (t, sys_exit c) => (t, exited c)
  | (t, raised e) => (t ++ [error_printed e], exited 1)
  end.

End Driver.

(** ** The literal forms, as the specification words them *)

Module TimeLiteral.

Import PyStr.

Fixpoint all_digits (s : string) : bool :=
  match s with
  | EmptyString => true
  | String c s' => is_digit c && all_digits s'
  end.

(** Exactly [DD:DD:DD]. *)
Definition clock_shaped (s : string) : bool :=
  match s with
  | String h1 (String h2 (String ":" (String m1 (String m2
      (String ":" (String s1 (String s2 EmptyString))))))) =>
      all_digits (String h1 (String h2 (String m1 (String m2 (String s1 (String s2 ""))))))
  | _ => false
  end.

(** A plain integer literal: one or more decimal digits and nothing else. *)
Definition plain_integer (s : string) : bool :=
  match s with
  | EmptyString => false
  | _ => all_digits s
  end.

(** The value of a run of digits, by position. *)
Fixpoint decimal (s : string) : Z :=
  match s with
  | EmptyString => 0
  | String c s' => digit_value c * 10 ^ Z.of_nat (String.length s') + decimal s'
  end.

Definition two_digits (a b : ascii) : Z := 10 * digit_value a + digit_value b.

(** [h * 3600 + m * 60 + s] for the fields of a [DD:DD:DD] text. *)
Definition clock_seconds (s : string) : Z :=
  match s with
  | String h1 (String h2 (String _ (String m1 (String m2
      (String _ (String s1 (String s2 _))))))) =>
      two_digits h1 h2 * 3600 + two_digits m1 m2 * 60 + two_digits s1 s2
  | _ => 0
  end.

Fixpoint without_underscores (s : string) : string :=
  match s with
  | EmptyString => EmptyString
  | String c s' =>
      if is_underscore c then without_underscores s' else String c (without_underscores s')
  end.

(** Digits with single underscores between them. *)
Inductive digit_groups : string -> Prop :=
| dg_last (c : ascii) : is_digit c = true -> digit_groups (String c "")
| dg_digit (c : ascii) (r : string) :
    is_digit c = true -> digit_groups r -> digit_groups (String c r)
| dg_underscore (c : ascii) (r : string) :
    is_digit c = true -> digit_groups r -> digit_groups (String c (String "_" r)).

Inductive sign_text : string -> Z -> Prop :=
| no_sign : sign_text "" 1
| plus_sign : sign_text "+" 1
| minus_sign : sign_text "-" (-1).

(** The texts [int] reads, with their values: white space, a sign, digit
    groups, white space. *)
Definition int_text (s : string) (v : Z) : Prop :=
  exists pre sgn sv ds post,
    s = (pre ++ sgn ++ ds ++ post)%string
    /\ all_space pre = true /\ sign_text sgn sv /\ digit_groups ds
    /\ all_space post = true
    /\ v = sv * decimal (without_underscores ds).


End TimeLiteral.

(** ** Sample inputs *)

Module Samples.

(** The command line with every option left at its default. *)
Definition default_args (in_file : string) : Args.t :=
  {| Args.in_file := in_file;
     Args.print_chapters := false;
     Args.interval := 20;
     Args.outpath := None;
     Args.start_time := "0";
     Args.start_chapter_number := None;
     Args.start_chapter_name := None;
     Args.end_time := None;
     Args.end_chapter_number := None;
     Args.end_chapter_name := None;
     Args.verbose := false;
     Args.simulate := false |}.

Definition with_times (start_time : string) (end_time : option string) (a : Args.t) : Args.t :=
  {| Args.in_file := Args.in_file a;
     Args.print_chapters := Args.print_chapters a;
     Args.interval := Args.interval a;
     Args.outpath := Args.outpath a;
     Args.start_time := start_time;
     Args.start_chapter_number := Args.start_chapter_number a;
     Args.start_chapter_name := Args.start_chapter_name a;
     Args.end_time := end_time;
     Args.end_chapter_number := Args.end_chapter_number a;
     Args.end_chapter_name := Args.end_chapter_name a;
     Args.verbose := Args.verbose a;
     Args.simulate := Args.simulate a |}.

Definition with_start_chapter (number : option Z) (name : option string) (a : Args.t) : Args.t :=
  {| Args.in_file := Args.in_file a;
     Args.print_chapters := Args.print_chapters a;
     Args.interval := Args.interval a;
     Args.outpath := Args.outpath a;
     Args.start_time := Args.start_time a;
     Args.start_chapter_number := number;
     Args.start_chapter_name := name;
     Args.end_time := Args.end_time a;
     Args.end_chapter_number := Args.end_chapter_number a;
     Args.end_chapter_name := Args.end_chapter_name a;
     Args.verbose := Args.verbose a;
     Args.simulate := Args.simulate a |}.

Definition with_simulate (a : Args.t) : Args.t :=
  {| Args.in_file := Args.in_file a;
     Args.print_chapters := Args.print_chapters a;
     Args.interval := Args.interval a;
     Args.outpath := Args.outpath a;
     Args.start_time := Args.start_time a;
     Args.start_chapter_number := Args.start_chapter_number a;
     Args.start_chapter_name := Args.start_chapter_name a;
     Args.end_time := Args.end_time a;
     Args.end_chapter_number := Args.end_chapter_number a;
     Args.end_chapter_name := Args.end_chapter_name a;
     Args.verbose := Args.verbose a;
     Args.simulate := true |}.



(** [--start-time 50 --end-time 30], and [--simulate]. *)
Definition from_50_to_30 : Args.t :=
  with_times "50" (Some "30") (default_args "video.mkv").

Definition simulated : Args.t := with_simulate (default_args "video.mkv").

Definition intro : Chapter.t :=
  {| Chapter.start_time := Fin 0; Chapter.end_time := Fin 100;
     Chapter.tags := Some (Some "Intro") |}.

Definition main : Chapter.t :=
  {| Chapter.start_time := Fin 100; Chapter.end_time := Fin 200;
     Chapter.tags := Some (Some "Main") |}.

Definition two_chapters : list Chapter.t := [intro; main].

(** A chapter whose tags carry no title, and one with an empty title. *)
Definition untitled : Chapter.t :=
  {| Chapter.start_time := Fin 0; Chapter.end_time := Fin 100;
     Chapter.tags := Some None |}.

Definition empty_title : Chapter.t :=
  {| Chapter.start_time := Fin 0; Chapter.end_time := Fin 100;
     Chapter.tags := Some (Some "") |}.

(** A world where every file probes as five minutes of media with the two
    chapters, every directory can be made and every extraction succeeds;
    every input has stem [video] and parent [.]. *)
Definition probe (in_file : string) : result probe_data :=
  Ok {| chapters := two_chapters; duration := Fin 300 |}.

Definition mkdir_ok (path : string) : bool := true.

Definition run_ok (in_file : string) (ss : Z) (out_fullpath : string) : bool := true.

Definition stem (path : string) : string := "video".

Definition parent (path : string) : string := ".".

Definition joinpath (a b : string) : string := (a ++ "/" ++ b)%string.

Definition run (args : Args.t) : list event * ending :=
  generate_screenshots stem parent joinpath probe mkdir_ok run_ok args.

End Samples.

(** ** Chapter lookup, as the specification words it *)

Module ChapterSpec.

Definition titled (c : Chapter.t) : Prop := exists title, Chapter.tags c = Some (Some title).

Definition has_title (title : string) (c : Chapter.t) : bool :=
  match Chapter.tags c with
  | Some (Some t) => String.eqb t title
  | _ => false
  end.

(** The field of the first chapter, in order, that carries the title. *)
Definition first_titled (chapters : list Chapter.t) (title : string) (k : key) : option float :=
  option_map (fun c => chapter_field c k) (List.find (has_title title) chapters).

End ChapterSpec.

(** ** Notions used in the proofs *)

Module Scan.

Import PyStr TimeLiteral.

Definition tail_shape (p : bool) (ds : string) : Prop :=
  if p then digit_groups ds
  else ds = "" \/ digit_groups ds \/ exists r, ds = String "_" r /\ digit_groups r.

Definition read_value (acc : Z) (ds : string) : Z :=
  acc * 10 ^ Z.of_nat (String.length (without_underscores ds))
  + decimal (without_underscores ds).

(** What may follow the digits: the end, or a character that is neither a
    digit nor an underscore. *)
Definition stops (rest : string) : Prop :=
  match rest with
  | EmptyString => True
  | String c _ => is_digit c = false /\ is_underscore c = false
  end.

Definition head_digit (s : string) : Prop :=
  exists c r, s = String c r /\ is_digit c = true.

Definition not_space_first (s : string) : Prop :=
  match s with
  | EmptyString => True
  | String c _ => is_space c = false
  end.

End Scan.

Module Bounds.

Local Open Scope Q_scope.

(** [2^-53], the relative error of one rounding. *)
Definition eps : Q := 1 # 9007199254740992.

(** Both ends of the range within [2^51] seconds of zero. *)
Definition modest (q : Q) : Prop := - 2 ^ 51 <= q /\ q <= 2 ^ 51.

End Bounds.

(** ** What a run is expected to leave behind *)

Module RunSpec.

Definition is_mkdir (ev : event) : bool :=
  match ev with mkdir _ => true | _ => false end.

Definition is_error (ev : event) : bool :=
  match ev with error_printed _ => true | _ => false end.

Definition has_tags (c : Chapter.t) : Prop := Chapter.tags c <> None.

(** A chapter that carries a title other than [title]. *)
Definition other_title (title : string) (c : Chapter.t) : Prop :=
  exists t, Chapter.tags c = Some (Some t) /\ t <> title.

(** The line of the chapter listing for chapter [idx]. *)
Definition listing_line (entry : Z * Chapter.t) : event :=
  printed (chapter_line (fst entry) (Chapter.start_time (snd entry))
             (match Chapter.tags (snd entry) with
              | Some (Some title) => title
              | _ => ""
              end)).

(** The six lines of the summary, printed when asked for. *)
Definition summary_lines (args : Args.t) (out_path : string)
    (start_time end_time : number) (max_count : Z) : list event :=
  if Args.verbose args || Args.simulate args then
    [printed (input_file_line (Args.in_file args));
     printed (output_directory_line out_path);
     printed (start_time_line start_time);
     printed (end_time_line end_time);
     printed (interval_line (Args.interval args));
     printed (total_screenshots_line max_count)]
  else [].

(** A step of the loop and its extraction call, for each entry. *)
Definition extraction_events (stem : string -> string) (joinpath : string -> string -> string)
    (in_file out_path : string) (max_count : Z) (entries : list (Z * Z)) : list event :=
  List.flat_map
    (fun entry =>
       [progress (fst entry) (snd entry);
        ffmpeg_run in_file (snd entry)
          (joinpath out_path (out_file_name (stem in_file) (fst entry) max_count))])
    entries.

(** Every extraction of the entries succeeds. *)
Definition all_run_ok (stem : string -> string) (joinpath : string -> string -> string)
    (run_ok : string -> Z -> string -> bool)
    (in_file out_path : string) (max_count : Z) (entries : list (Z * Z)) : Prop :=
  Forall (fun entry =>
            run_ok in_file (snd entry)
              (joinpath out_path (out_file_name (stem in_file) (fst entry) max_count))
            = true) entries.

(** One turn of the loop, by its effects: in simulate mode only the step is
    shown; otherwise the extraction is called, and its failure is raised. *)
Definition simulate_step (entry : Z * Z) : IO unit :=
  ([progress (fst entry) (snd entry)], value_of tt).

Definition extract_step (stem : string -> string) (joinpath : string -> string -> string)
    (run_ok : string -> Z -> string -> bool)
    (in_file out_path : string) (max_count : Z) (entry : Z * Z) : IO unit :=
  let out_fullpath :=
    joinpath out_path (out_file_name (stem in_file) (fst entry) max_count) in
  ([progress (fst entry) (snd entry); ffmpeg_run in_file (snd entry) out_fullpath],
   if run_ok in_file (snd entry) out_fullpath then value_of tt
   else raised ffmpeg_Error).

(** A run that gets as far as the loop: the probe answers [p], the run is
    not a chapter listing, the directory can be made, the range resolves
    to [start_time] and [end_time], [max_count] is advertised and
    [entries] are scheduled. *)
Definition reaches_loop (parent : string -> string) (joinpath : string -> string -> string)
    (probe : string -> result probe_data) (mkdir_ok : string -> bool)
    (args : Args.t) (p : probe_data) (start_time end_time : number)
    (max_count : Z) (entries : list (Z * Z)) : Prop :=
  probe (Args.in_file args) = Ok p
  /\ Args.print_chapters args = false
  /\ mkdir_ok (out_path_of parent joinpath args) = true
  /\ start_time_of (chapters p) args = Ok start_time
  /\ end_time_of (chapters p) (duration p) args = Ok (Some end_time)
  /\ max_count_of start_time end_time (Args.interval args) = Ok max_count
  /\ schedule start_time end_time (Args.interval args) = Ok entries.

End RunSpec.

(** ** More sample inputs *)

Module Worlds.

(** An extractor that fails at second 40 and nowhere else. *)
Definition fails_at_40 (in_file : string) (ss : Z) (out_fullpath : string) : bool :=
  negb (ss =? 40).

(** A probe whose second chapter has no tags. *)
Definition tagless : Chapter.t :=
  {| Chapter.start_time := Fin 100; Chapter.end_time := Fin 200; Chapter.tags := None |}.

Definition probe_tagless (in_file : string) : result probe_data :=
  Ok {| chapters := [Samples.intro; tagless; Samples.main]; duration := Fin 300 |}.

Definition probe_fails (in_file : string) : result probe_data := Raise ffmpeg_Error.

Definition with_print_chapters (a : Args.t) : Args.t :=
  {| Args.in_file := Args.in_file a;
     Args.print_chapters := true;
     Args.interval := Args.interval a;
     Args.outpath := Args.outpath a;
     Args.start_time := Args.start_time a;
     Args.start_chapter_number := Args.start_chapter_number a;
     Args.start_chapter_name := Args.start_chapter_name a;
     Args.end_time := Args.end_time a;
     Args.end_chapter_number := Args.end_chapter_number a;
     Args.end_chapter_name := Args.end_chapter_name a;
     Args.verbose := Args.verbose a;
     Args.simulate := Args.simulate a |}.

Definition with_end_chapter (number : option Z) (name : option string) (a : Args.t) : Args.t :=
  {| Args.in_file := Args.in_file a;
     Args.print_chapters := Args.print_chapters a;
     Args.interval := Args.interval a;
     Args.outpath := Args.outpath a;
     Args.start_time := Args.start_time a;
     Args.start_chapter_number := Args.start_chapter_number a;
     Args.start_chapter_name := Args.start_chapter_name a;
     Args.end_time := Args.end_time a;
     Args.end_chapter_number := number;
     Args.end_chapter_name := name;
     Args.verbose := Args.verbose a;
     Args.simulate := Args.simulate a |}.

Definition with_interval (interval : Z) (a : Args.t) : Args.t :=
  {| Args.in_file := Args.in_file a;
     Args.print_chapters := Args.print_chapters a;
     Args.interval := interval;
     Args.outpath := Args.outpath a;
     Args.start_time := Args.start_time a;
     Args.start_chapter_number := Args.start_chapter_number a;
     Args.start_chapter_name := Args.start_chapter_name a;
     Args.end_time := Args.end_time a;
     Args.end_chapter_number := Args.end_chapter_number a;
     Args.end_chapter_name := Args.end_chapter_name a;
     Args.verbose := Args.verbose a;
     Args.simulate := Args.simulate a |}.

(** The options used below: the defaults; a chapter listing; an end chapter
    that does not exist; an interval of zero; a minute from 0 to 61. *)
Definition plain : Args.t := Samples.default_args "video.mkv".

Definition listing : Args.t := with_print_chapters plain.

Definition to_missing_chapter : Args.t := with_end_chapter None (Some "Credits") plain.

Definition zero_interval : Args.t := with_interval 0 plain.

Definition first_minute : Args.t := Samples.with_times "0" (Some "61") plain.

Definition run_with (probe : string -> result probe_data)
    (run_ok : string -> Z -> string -> bool) (args : Args.t) : list event * ending :=
  generate_screenshots Samples.stem Samples.parent Samples.joinpath probe
    Samples.mkdir_ok run_ok args.

End Worlds.

(** * Properties *)

(** ** Reading integers and times *)

Section StringFacts.

Import PyStr TimeLiteral Scan.

Lemma append_nil_r (s : string) : (s ++ "")%string = s.
Proof. induction s; simpl; congruence. Qed.

Lemma append_assoc (a b c : string) : ((a ++ b) ++ c)%string = (a ++ (b ++ c))%string.
Proof. induction a; simpl; congruence. Qed.

Lemma length_append (a b : string) :
  String.length (a ++ b) = (String.length a + String.length b)%nat.
Proof. induction a; simpl; congruence. Qed.

Lemma digit_not_space (c : ascii) : is_digit c = true -> is_space c = false.
Proof. unfold is_digit, is_space. lia. Qed.

Lemma digit_not_underscore (c : ascii) : is_digit c = true -> is_underscore c = false.
Proof. unfold is_digit, is_underscore. lia. Qed.

Lemma space_not_digit (c : ascii) : is_space c = true -> is_digit c = false.
Proof. unfold is_digit, is_space. lia. Qed.

Lemma space_not_underscore (c : ascii) : is_space c = true -> is_underscore c = false.
Proof. unfold is_underscore, is_space. lia. Qed.

Lemma digit_value_range (c : ascii) : is_digit c = true -> 0 <= digit_value c <= 9.
Proof. unfold is_digit, digit_value. lia. Qed.

Lemma underscore_char (c : ascii) : is_underscore c = true -> c = "_"%char.
Proof.
  unfold is_underscore, code. intros H.
  apply Z.eqb_eq in H.
  rewrite <- (ascii_N_embedding c).
  replace (N_of_ascii c) with 95%N by lia. reflexivity.
Qed.


Lemma read_value_digit (acc : Z) (c : ascii) (ds : string) :
  is_digit c = true ->
  read_value acc (String c ds) = read_value (10 * acc + digit_value c) ds.
Proof.
  intros Hc. unfold read_value.
  cbn [without_underscores]. rewrite (digit_not_underscore c Hc).
  cbn [decimal String.length].
  rewrite Nat2Z.inj_succ, Z.pow_succ_r by lia. ring.
Qed.

Lemma tail_shape_digit (c : ascii) (ds : string) :
  is_digit c = true -> tail_shape false ds -> digit_groups (String c ds).
Proof.
  intros Hc [-> | [H | [r [-> H]]]].
  - now apply dg_last.
  - now apply dg_digit.
  - now apply dg_underscore.
Qed.

Lemma scan_digits_sound (s : string) :
  forall acc p v rest,
    scan_digits acc p s = Some (v, rest) ->
    exists ds, s = (ds ++ rest)%string /\ tail_shape p ds /\ v = read_value acc ds.
Proof.
  induction s as [| c s IH]; intros acc p v rest H; simpl in H.
  - destruct p; [discriminate |]. injection H as <- <-.
    exists "". repeat split; [now left | unfold read_value; simpl; ring].
  - destruct (is_digit c) eqn:Hd.
    + apply IH in H. destruct H as [ds [-> [Hs ->]]].
      exists (String c ds). split; [reflexivity |]. split.
      * pose proof (tail_shape_digit c ds Hd Hs) as Hg.
        destruct p; simpl; auto.
      * symmetry. now apply read_value_digit.
    + destruct (is_underscore c) eqn:Hu.
      * destruct p; [discriminate |].
        apply IH in H. destruct H as [ds [-> [Hs ->]]].
        apply underscore_char in Hu. subst c.
        exists (String "_" ds). split; [reflexivity |]. split.
        -- right; right. now exists ds.
        -- reflexivity.
      * destruct p; [discriminate |]. injection H as <- <-.
        exists "". repeat split; [now left | unfold read_value; simpl; ring].
Qed.

Lemma scan_digits_stop (acc : Z) (rest : string) :
  stops rest -> scan_digits acc false rest = Some (acc, rest).
Proof.
  destruct rest as [| c r]; simpl; [reflexivity |].
  now intros [-> ->].
Qed.

Lemma scan_digits_prev (ds rest : string) (acc : Z) :
  digit_groups ds ->
  scan_digits acc true (ds ++ rest) = scan_digits acc false (ds ++ rest).
Proof. intros H. destruct H; simpl; now rewrite H. Qed.

Lemma scan_digits_complete (ds : string) :
  digit_groups ds ->
  forall rest acc, stops rest ->
    scan_digits acc false (ds ++ rest) = Some (read_value acc ds, rest).
Proof.
  induction 1 as [c Hc | c r Hc Hr IH | c r Hc Hr IH]; intros rest acc Hrest.
  - simpl. rewrite Hc, (read_value_digit acc c "" Hc).
    unfold read_value. simpl. rewrite Z.mul_1_r, Z.add_0_r.
    now apply scan_digits_stop.
  - simpl. rewrite Hc, (read_value_digit acc c r Hc). now apply IH.
  - simpl. rewrite Hc. simpl.
    rewrite (scan_digits_prev r rest _ Hr), (read_value_digit acc c _ Hc).
    now apply IH.
Qed.

Lemma lstrip_spec (s : string) :
  exists pre, s = (pre ++ lstrip s)%string /\ all_space pre = true.
Proof.
  induction s as [| c s [pre [H1 H2]]]; simpl.
  - now exists "".
  - destruct (is_space c) eqn:Hc.
    + exists (String c pre). simpl. rewrite Hc, H2. split; [congruence | reflexivity].
    + now exists "".
Qed.

Lemma lstrip_append (pre body : string) :
  all_space pre = true -> not_space_first body -> lstrip (pre ++ body) = body.
Proof.
  induction pre as [| c pre IH]; simpl; intros Hp Hb.
  - destruct body; simpl in *; [reflexivity | now rewrite Hb].
  - apply andb_prop in Hp. destruct Hp as [-> Hp]. now apply IH.
Qed.

Lemma digit_groups_first (ds : string) :
  digit_groups ds -> exists c r, ds = String c r /\ is_digit c = true.
Proof. intros H; destruct H; eauto. Qed.

Lemma all_space_stops (post : string) : all_space post = true -> stops post.
Proof.
  destruct post as [| c r]; simpl; [trivial |].
  intros H. apply andb_prop in H. destruct H as [H _].
  split; [now apply space_not_digit | now apply space_not_underscore].
Qed.

Lemma digit_not_sign (c : ascii) :
  is_digit c = true -> c <> "+"%char /\ c <> "-"%char.
Proof. intros H; split; intros ->; discriminate. Qed.

Lemma split_sign_spec (sgn : string) (sv : Z) (ds post : string) :
  sign_text sgn sv -> digit_groups ds ->
  split_sign (sgn ++ ds ++ post) = (sv, (ds ++ post)%string).
Proof.
  intros Hs Hg. destruct Hs; try reflexivity.
  destruct (digit_groups_first ds Hg) as [c [r [-> Hc]]].
  destruct (digit_not_sign c Hc) as [Hp Hm].
  cbn [append]. unfold split_sign.
  destruct c as [[] [] [] [] [] [] [] []]; try reflexivity; congruence.
Qed.

(** [int] reads exactly the texts of [int_text], with their values. *)
Lemma int_spec (s : string) (v : Z) : int s = Ok v <-> int_text s v.
Proof.
  split.
  - unfold int. intros H.
    destruct (lstrip_spec s) as [pre [Hs Hpre]].
    assert (Hbody : forall sv body,
               match body with
               | String c _ =>
                   if is_digit c then
                     match scan_digits 0 false body with
                     | Some (v, rest) =>
                         if all_space rest then Ok (sv * v) else Raise ValueError
                     | None => Raise ValueError
                     end
                   else Raise ValueError
               | EmptyString => Raise ValueError
               end = Ok v ->
               exists ds post, body = (ds ++ post)%string /\ digit_groups ds
                               /\ all_space post = true
                               /\ v = sv * decimal (without_underscores ds)).
    { intros sv [| c body] Hb; [discriminate |].
      destruct (is_digit c) eqn:Hc; [| discriminate].
      destruct (scan_digits 0 false (String c body)) as [[w rest] |] eqn:Hscan;
        [| discriminate].
      destruct (all_space rest) eqn:Hrest; [| discriminate].
      injection Hb as <-.
      cbn [scan_digits] in Hscan. rewrite Hc in Hscan.
      apply scan_digits_sound in Hscan. destruct Hscan as [ds [-> [Hshape ->]]].
      exists (String c ds), rest. repeat split; auto.
      - now apply tail_shape_digit.
      - rewrite <- (read_value_digit 0 c ds Hc). reflexivity. }
    destruct (lstrip s) as [| c body] eqn:Hl.
    + simpl in H. discriminate.
    + assert (Hcases : (c = "+"%char /\ split_sign (String c body) = (1, body))
                       \/ (c = "-"%char /\ split_sign (String c body) = (-1, body))
                       \/ (c <> "+"%char /\ c <> "-"%char
                           /\ split_sign (String c body) = (1, String c body))).
      { destruct (Ascii.eqb_spec c "+") as [-> | Hp]; [now left |].
        destruct (Ascii.eqb_spec c "-") as [-> | Hm]; [right; now left |].
        right; right. repeat split; auto.
        unfold split_sign.
        destruct c as [[] [] [] [] [] [] [] []]; try reflexivity; congruence. }
      destruct Hcases as [[-> Hsp] | [[-> Hsp] | [Hp [Hm Hsp]]]];
        rewrite Hsp in H;
        [ apply (Hbody 1 body) in H | apply (Hbody (-1) body) in H
        | apply (Hbody 1 (String c body)) in H ];
        destruct H as [ds [post [Hb [Hg [Hpost ->]]]]].
      * exists pre, "+", 1, ds, post. repeat split; auto; try constructor.
        rewrite Hs. simpl. now rewrite Hb.
      * exists pre, "-", (-1), ds, post. repeat split; auto; try constructor.
        rewrite Hs. simpl. now rewrite Hb.
      * exists pre, "", 1, ds, post. repeat split; auto; try constructor.
        rewrite Hs. simpl. now rewrite Hb.
  - intros [pre [sgn [sv [ds [post [-> [Hpre [Hsgn [Hg [Hpost ->]]]]]]]]]].
    unfold int.
    destruct (digit_groups_first ds Hg) as [c [r [Hds Hc]]].
    assert (Hscan : scan_digits 0 false (ds ++ post)
                    = Some (decimal (without_underscores ds), post)).
    { rewrite (scan_digits_complete ds Hg post 0 (all_space_stops post Hpost)).
      reflexivity. }
    rewrite lstrip_append; auto.
    + rewrite (split_sign_spec sgn sv ds post Hsgn Hg).
      rewrite Hds in Hscan |- *. cbn [append] in Hscan |- *.
      now rewrite Hc, Hscan, Hpost.
    + destruct Hsgn; simpl; try reflexivity.
      rewrite Hds. simpl. now apply digit_not_space.
Qed.



Lemma all_digits_groups (c : ascii) (r : string) :
  all_digits (String c r) = true ->
  digit_groups (String c r) /\ without_underscores (String c r) = String c r.
Proof.
  revert c. induction r as [| d r IH]; intros c H; cbn [all_digits] in H;
    apply andb_prop in H; destruct H as [Hc Hr].
  - split; [now apply dg_last |].
    cbn [without_underscores]. now rewrite (digit_not_underscore c Hc).
  - destruct (IH d Hr) as [Hg Hw]. split; [now apply dg_digit |].
    change (without_underscores (String c (String d r)))
      with (if is_underscore c then without_underscores (String d r)
            else String c (without_underscores (String d r))).
    now rewrite (digit_not_underscore c Hc), Hw.
Qed.

Lemma int_plain (s : string) : plain_integer s = true -> int s = Ok (decimal s).
Proof.
  destruct s as [| c r]; [discriminate |]. intros H.
  destruct (all_digits_groups c r H) as [Hg Hw].
  apply int_spec. exists "", "", 1, (String c r), "".
  rewrite Hw. cbn [append]. rewrite append_nil_r.
  repeat split; auto; try constructor.
  now destruct (decimal (String c r)).
Qed.

Lemma int_two_digits (a b : ascii) :
  is_digit a = true -> is_digit b = true ->
  int (String a (String b "")) = Ok (two_digits a b).
Proof.
  intros Ha Hb.
  rewrite (int_plain (String a (String b ""))).
  - f_equal. unfold two_digits. cbn [decimal String.length].
    change (Z.of_nat 1) with 1. change (Z.of_nat 0) with 0. lia.
  - cbn. now rewrite Ha, Hb.
Qed.

Lemma digit_not_colon (c : ascii) : is_digit c = true -> Ascii.eqb c ":" = false.
Proof. intros H. apply Ascii.eqb_neq. intros ->. discriminate. Qed.

Lemma six_digits (a b c d e f : ascii) :
  all_digits (String a (String b (String c (String d (String e (String f ""))))))
  = true ->
  is_digit a = true /\ is_digit b = true /\ is_digit c = true
  /\ is_digit d = true /\ is_digit e = true /\ is_digit f = true.
Proof.
  cbn [all_digits]. intros H.
  repeat (apply andb_prop in H; destruct H as [? H]). auto 10.
Qed.

Lemma split_digit (c : ascii) (s : string) :
  is_digit c = true ->
  split ":" (String c s)
  = match split ":" s with
    | [] => [String c ""]
    | w :: ws => String c w :: ws
    end.
Proof. intros H. cbn [split]. now rewrite (digit_not_colon c H). Qed.

Lemma split_colon (s : string) : split ":" (String ":" s) = "" :: split ":" s.
Proof. reflexivity. Qed.

Lemma clock_shaped_inv (s : string) :
  clock_shaped s = true ->
  exists h1 h2 m1 m2 s1 s2,
    s = String h1 (String h2 (String ":" (String m1 (String m2
          (String ":" (String s1 (String s2 "")))))))
    /\ is_digit h1 = true /\ is_digit h2 = true /\ is_digit m1 = true
    /\ is_digit m2 = true /\ is_digit s1 = true /\ is_digit s2 = true.
Proof.
  intros H.
  destruct s as [| h1 s]; [discriminate H |].
  destruct s as [| h2 s]; [discriminate H |].
  destruct s as [| c1 s]; [discriminate H |].
  destruct s as [| m1 s]; [destruct c1 as [[] [] [] [] [] [] [] []]; discriminate H |].
  destruct s as [| m2 s]; [destruct c1 as [[] [] [] [] [] [] [] []]; discriminate H |].
  destruct s as [| c2 s]; [destruct c1 as [[] [] [] [] [] [] [] []]; discriminate H |].
  destruct c1 as [[] [] [] [] [] [] [] []]; try discriminate H.
  destruct s as [| s1 s]; [destruct c2 as [[] [] [] [] [] [] [] []]; discriminate H |].
  destruct s as [| s2 rest]; [destruct c2 as [[] [] [] [] [] [] [] []]; discriminate H |].
  destruct c2 as [[] [] [] [] [] [] [] []]; try discriminate H.
  destruct rest; [| discriminate H].
  cbn [clock_shaped] in H.
  exists h1, h2, m1, m2, s1, s2. split; [reflexivity |].
  now apply six_digits.
Qed.

Lemma parse_time_clock_shaped (s : string) :
  clock_shaped s = true -> parse_time s = Ok (clock_seconds s).
Proof.
  intros H.
  destruct (clock_shaped_inv s H) as (h1 & h2 & m1 & m2 & s1 & s2 & -> & H1 & H2 & H3 & H4 & H5 & H6).
  unfold parse_time, re_match_clock.
  rewrite H1, H2, H3, H4, H5, H6. cbn [andb orb Ascii.eqb Bool.eqb String.eqb].
  rewrite !split_digit, !split_colon, !split_digit, !split_colon, !split_digit
    by assumption.
  cbn [split map_result bind].
  rewrite !int_two_digits by assumption.
  reflexivity.
Qed.



End StringFacts.

(** ** Rounding to binary64 *)

Section Rounding.

Import Bounds.

Local Open Scope Q_scope.

Lemma two_neq_0 : ~ 2 == 0.
Proof. discriminate. Qed.

Lemma pow2_pos (e : Z) : 0 < 2 ^ e.
Proof. apply Qpower_0_lt. reflexivity. Qed.

Lemma pow2_succ (e : Z) : 2 ^ (e + 1) == 2 * 2 ^ e.
Proof. rewrite Qpower_plus by exact two_neq_0. rewrite Qpower_1_r. ring. Qed.

Lemma pow2_of_Z (n : Z) : (0 <= n)%Z -> inject_Z (2 ^ n) == 2 ^ n.
Proof. intros H. now rewrite Zpower_Qpower. Qed.

Lemma pow2_le (n m : Z) : (n <= m)%Z -> 2 ^ n <= 2 ^ m.
Proof. intros H. apply Qpower_le_compat_l; [exact H | discriminate]. Qed.

Lemma Z_log2_bounds (n : Z) :
  (0 < n)%Z -> inject_Z (2 ^ Z.log2 n) <= inject_Z n
               /\ inject_Z n < inject_Z (2 ^ (Z.log2 n + 1)).
Proof.
  intros H. destruct (Z.log2_spec n H) as [H1 H2].
  split; [rewrite <- Zle_Qle | rewrite <- Zlt_Qlt]; [exact H1 |].
  replace (Z.log2 n + 1)%Z with (Z.succ (Z.log2 n)) by lia. exact H2.
Qed.

Lemma ilog2_spec (q : Q) :
  0 < q -> 2 ^ ilog2 q <= q /\ q < 2 ^ (ilog2 q + 1).
Proof.
  intros Hq. unfold ilog2.
  set (l := (Z.log2 (Qnum q) - Z.log2 (Z.pos (Qden q)))%Z).
  assert (Hn : (0 < Qnum q)%Z).
  { destruct q as [n d]. unfold Qlt in Hq. simpl in *. lia. }
  destruct (Z_log2_bounds (Qnum q) Hn) as [Hn1 Hn2].
  destruct (Z_log2_bounds (Z.pos (Qden q)) (Pos2Z.is_pos _)) as [Hd1 Hd2].
  rewrite pow2_of_Z in Hn1, Hn2, Hd1, Hd2
    by (pose proof (Z.log2_nonneg (Qnum q)); pose proof (Z.log2_nonneg (Z.pos (Qden q))); lia).
  assert (Hqd : inject_Z (Qnum q) == q * inject_Z (Z.pos (Qden q))).
  { destruct q as [n d]. unfold Qeq, Qmult, inject_Z. simpl. lia. }
  set (a := Z.log2 (Qnum q)) in *. set (b := Z.log2 (Z.pos (Qden q))) in *.
  assert (Hdpos : 0 < inject_Z (Z.pos (Qden q))) by (apply pow2_pos || (unfold Qlt; simpl; lia)).
  assert (Hup : q < 2 ^ (l + 1)).
  { assert (E : 2 ^ (a + 1) == 2 ^ (l + 1) * 2 ^ b).
    { rewrite <- Qpower_plus by exact two_neq_0. apply Qpower_comp; [reflexivity |]. subst l. lia. }
    apply Qnot_le_lt. intros Hc.
    assert (2 ^ (l + 1) * 2 ^ b <= q * inject_Z (Z.pos (Qden q))).
    { apply Qle_trans with (q * 2 ^ b).
      - apply Qmult_le_compat_r; [exact Hc | apply Qlt_le_weak, pow2_pos].
      - rewrite (Qmult_comm q), (Qmult_comm q). apply Qmult_le_compat_r; [exact Hd1 | now apply Qlt_le_weak]. }
    rewrite <- E, <- Hqd in H. apply (Qlt_irrefl (inject_Z (Qnum q))).
    eapply Qlt_le_trans; eassumption. }
  destruct (Qle_bool (2 ^ l) q) eqn:Hb.
  - apply Qle_bool_iff in Hb. split; assumption.
  - split.
    + (* 2^(l-1) <= q *)
      assert (E : 2 ^ a == 2 ^ (l - 1) * 2 ^ (b + 1)).
      { rewrite <- Qpower_plus by exact two_neq_0. apply Qpower_comp; [reflexivity |]. subst l. lia. }
      apply Qnot_lt_le. intros Hc.
      assert (q * inject_Z (Z.pos (Qden q)) < 2 ^ (l - 1) * 2 ^ (b + 1)).
      { apply Qle_lt_trans with (q * 2 ^ (b + 1)).
        - rewrite (Qmult_comm q), (Qmult_comm q). apply Qmult_le_compat_r; [now apply Qlt_le_weak | now apply Qlt_le_weak].
        - apply Qmult_lt_compat_r; [apply pow2_pos | exact Hc]. }
      rewrite <- E, <- Hqd in H. apply (Qlt_irrefl (inject_Z (Qnum q))).
      eapply Qlt_le_trans; eassumption.
    + replace (l - 1 + 1)%Z with l by lia.
      apply Qnot_le_lt. intros Hc. apply Qle_bool_iff in Hc. congruence.
Qed.


Lemma round_half_even_bounds (m : Q) :
  m - (1 # 2) <= inject_Z (round_half_even m)
  /\ inject_Z (round_half_even m) <= m + (1 # 2).
Proof.
  unfold round_half_even.
  pose proof (Qfloor_le m) as Hlo. pose proof (Qlt_floor m) as Hhi.
  rewrite inject_Z_plus in Hhi. change (inject_Z 1) with 1 in Hhi.
  destruct (Qcompare (m - inject_Z (Qfloor m)) (1 # 2)) eqn:C.
  - apply Qeq_alt in C.
    destruct (Z.even (Qfloor m));
      [| rewrite inject_Z_plus; change (inject_Z 1) with 1]; split; lra.
  - apply Qlt_alt in C. split; lra.
  - apply Qgt_alt in C. rewrite inject_Z_plus. change (inject_Z 1) with 1.
    split; lra.
Qed.

Lemma round_half_even_nonneg (m : Q) : 0 <= m -> (0 <= round_half_even m)%Z.
Proof.
  intros H. unfold round_half_even.
  assert (0 <= Qfloor m)%Z.
  { change 0%Z with (Qfloor 0). now apply Qfloor_resp_le. }
  destruct (Qcompare _ _); [destruct (Z.even _) |..]; lia.
Qed.

Lemma round_half_even_Z (m : Q) (z : Z) : m == inject_Z z -> round_half_even m = z.
Proof.
  intros H. unfold round_half_even.
  assert (E : Qfloor m = z) by (rewrite (Qfloor_comp _ _ H); apply Qfloor_Z).
  rewrite E.
  assert (C : Qcompare (m - inject_Z z) (1 # 2) = Lt).
  { apply (proj1 (Qlt_alt _ _)). lra. }
  now rewrite C.
Qed.

Lemma round_pos_eq (q : Q) :
  round_pos q == inject_Z (round_half_even (q / 2 ^ ulp_exp q)) * 2 ^ ulp_exp q.
Proof. unfold round_pos. apply Qred_correct. Qed.

Lemma div_mul_pow2 (q : Q) (e : Z) : q / 2 ^ e * 2 ^ e == q.
Proof. field. apply Qpower_not_0. exact two_neq_0. Qed.

(** The rounding error is at most half a unit in the last place. *)
Lemma round_pos_error (q : Q) :
  0 < q ->
  q - 2 ^ ulp_exp q / 2 <= round_pos q /\ round_pos q <= q + 2 ^ ulp_exp q / 2
  /\ 0 <= round_pos q.
Proof.
  intros Hq. rewrite round_pos_eq.
  set (e := ulp_exp q). set (m := q / 2 ^ e).
  pose proof (pow2_pos e) as He.
  destruct (round_half_even_bounds m) as [Hlo Hhi].
  assert (Hm : m * 2 ^ e == q) by apply div_mul_pow2.
  assert (Hlo' : (m - (1 # 2)) * 2 ^ e <= inject_Z (round_half_even m) * 2 ^ e).
  { apply Qmult_le_compat_r; [exact Hlo | now apply Qlt_le_weak]. }
  assert (Hhi' : inject_Z (round_half_even m) * 2 ^ e <= (m + (1 # 2)) * 2 ^ e).
  { apply Qmult_le_compat_r; [exact Hhi | now apply Qlt_le_weak]. }
  assert (E1 : (m - (1 # 2)) * 2 ^ e == q - 2 ^ e / 2) by (rewrite <- Hm; field).
  assert (E2 : (m + (1 # 2)) * 2 ^ e == q + 2 ^ e / 2) by (rewrite <- Hm; field).
  rewrite E1 in Hlo'. rewrite E2 in Hhi'.
  repeat split; try assumption.
  apply Qmult_le_0_compat; [| now apply Qlt_le_weak].
  change 0 with (inject_Z 0). rewrite <- Zle_Qle.
  apply round_half_even_nonneg. unfold m.
  apply Qlt_le_weak. apply Qlt_shift_div_l; [exact He | lra].
Qed.

Lemma pow2_shift (l : Z) : 2 ^ (l - 52) == 2 ^ l / 2 ^ 52.
Proof. apply Qpower_minus. exact two_neq_0. Qed.

(** In the normal range the last place is at most [q / 2^52]. *)
Lemma ulp_exp_normal (q : Q) :
  2 ^ (-1022) <= q -> 2 ^ ulp_exp q <= q / 2 ^ 52.
Proof.
  intros Hq.
  assert (Hpos : 0 < q) by (eapply Qlt_le_trans; [apply (pow2_pos (-1022)) | exact Hq]).
  destruct (ilog2_spec q Hpos) as [Hlo Hhi].
  assert (Hl : (-1022 <= ilog2 q)%Z).
  { assert (2 ^ (-1022) < 2 ^ (ilog2 q + 1)) by (eapply Qle_lt_trans; eassumption).
    apply Qpower_lt_compat_l_inv in H; [lia | reflexivity]. }
  unfold ulp_exp. rewrite Z.max_l by lia. rewrite pow2_shift.
  apply Qmult_le_compat_r; [exact Hlo |].
  apply Qlt_le_weak, Qinv_lt_0_compat, pow2_pos.
Qed.

(** Everywhere, the last place is at most [q / 2^52] or [2^-1074]. *)
Lemma ulp_exp_any (q : Q) :
  0 < q -> 2 ^ ulp_exp q <= q / 2 ^ 52 + 2 ^ (-1074).
Proof.
  intros Hpos.
  destruct (ilog2_spec q Hpos) as [Hlo Hhi].
  assert (0 <= q / 2 ^ 52).
  { apply Qlt_le_weak. apply Qlt_shift_div_l; [apply pow2_pos | lra]. }
  pose proof (pow2_pos (-1074)).
  unfold ulp_exp. destruct (Z.max_spec (ilog2 q - 52) (-1074)) as [[_ ->] | [_ ->]].
  - lra.
  - rewrite pow2_shift.
    assert (2 ^ ilog2 q / 2 ^ 52 <= q / 2 ^ 52).
    { apply Qmult_le_compat_r; [exact Hlo |].
      apply Qlt_le_weak, Qinv_lt_0_compat, pow2_pos. }
    lra.
Qed.


Lemma round_Q_pos (q : Q) : 0 < q -> round_Q q = round_pos q.
Proof.
  intros H. unfold round_Q.
  assert (C : Qcompare q 0 = Gt) by now apply (proj1 (Qgt_alt _ _)).
  now rewrite C.
Qed.

Lemma round_Q_neg (q : Q) : q < 0 -> round_Q q = - round_pos (- q).
Proof.
  intros H. unfold round_Q.
  assert (C : Qcompare q 0 = Lt) by now apply (proj1 (Qlt_alt _ _)).
  now rewrite C.
Qed.

Lemma round_Q_zero (q : Q) : q == 0 -> round_Q q = 0.
Proof.
  intros H. unfold round_Q.
  assert (C : Qcompare q 0 = Eq) by now apply (proj1 (Qeq_alt _ _)).
  now rewrite C.
Qed.

Lemma Qhalf (x : Q) : x / 2 == x * (1 # 2).
Proof. field. Qed.

Lemma half_ulp_any (q : Q) :
  0 < q -> 2 ^ ulp_exp q / 2 <= q / 2 ^ 53 + 2 ^ (-1075).
Proof.
  intros H. pose proof (ulp_exp_any q H) as U.
  assert (E1 : q / 2 ^ 53 == q / 2 ^ 52 / 2).
  { change 53%Z with (52 + 1)%Z. rewrite pow2_succ.
    field; try (apply Qpower_not_0; exact two_neq_0). }
  assert (E2 : 2 ^ (-1075) == 2 ^ (-1074) / 2).
  { change (-1074)%Z with (-1075 + 1)%Z. rewrite pow2_succ. field. }
  rewrite E1, E2.
  revert U. generalize (2 ^ ulp_exp q), (q / 2 ^ 52), (2 ^ (-1074)).
  intros u a b U. rewrite !Qhalf. lra.
Qed.

(** Rounding keeps the sign and moves a value by at most its [2^-53]rd
    part plus [2^-1075]. *)
Lemma round_Q_any (q : Q) :
  (0 <= q -> 0 <= round_Q q /\ q - (q / 2 ^ 53 + 2 ^ (-1075)) <= round_Q q
             /\ round_Q q <= q + (q / 2 ^ 53 + 2 ^ (-1075)))
  /\ (q <= 0 -> round_Q q <= 0 /\ q - (- q / 2 ^ 53 + 2 ^ (-1075)) <= round_Q q
                /\ round_Q q <= q + (- q / 2 ^ 53 + 2 ^ (-1075))).
Proof.
  pose proof (pow2_pos (-1075)) as Hp.
  split; intros H.
  - destruct (Qlt_le_dec 0 q) as [Hpos | Hz].
    + rewrite (round_Q_pos q Hpos).
      destruct (round_pos_error q Hpos) as (Hlo & Hhi & Hnn).
      pose proof (half_ulp_any q Hpos). repeat split; lra.
    + assert (Hq : q == 0) by lra. rewrite (round_Q_zero q Hq).
      rewrite Hq. unfold Qdiv. rewrite Qmult_0_l. repeat split; lra.
  - destruct (Qlt_le_dec q 0) as [Hneg | Hz].
    + rewrite (round_Q_neg q Hneg).
      assert (Hpos : 0 < - q) by lra.
      destruct (round_pos_error (- q) Hpos) as (Hlo & Hhi & Hnn).
      pose proof (half_ulp_any (- q) Hpos). repeat split; lra.
    + assert (Hq : q == 0) by lra. rewrite (round_Q_zero q Hq).
      rewrite Hq. unfold Qdiv. setoid_replace (- 0) with 0 by ring.
      rewrite Qmult_0_l. repeat split; lra.
Qed.

(** In the normal range the error is relative. *)
Lemma round_Q_normal (q : Q) :
  2 ^ (-1022) <= q ->
  q - q / 2 ^ 53 <= round_Q q /\ round_Q q <= q + q / 2 ^ 53.
Proof.
  intros H.
  assert (Hpos : 0 < q) by (eapply Qlt_le_trans; [apply (pow2_pos (-1022)) | exact H]).
  rewrite (round_Q_pos q Hpos).
  destruct (round_pos_error q Hpos) as (Hlo & Hhi & _).
  pose proof (ulp_exp_normal q H) as U.
  assert (E1 : q / 2 ^ 53 == q / 2 ^ 52 / 2).
  { change 53%Z with (52 + 1)%Z. rewrite pow2_succ.
    field; try (apply Qpower_not_0; exact two_neq_0). }
  rewrite E1. rewrite Qhalf in Hlo, Hhi. rewrite Qhalf.
  revert Hlo Hhi U. generalize (2 ^ ulp_exp q), (q / 2 ^ 52), (round_pos q).
  intros u a r Hlo Hhi U. split; lra.
Qed.


Lemma div_pow2_le (q : Q) (n : Z) : (0 <= n)%Z -> 0 <= q -> q / 2 ^ n <= q.
Proof.
  intros Hn Hq. apply Qle_shift_div_r; [apply pow2_pos |].
  assert (1 <= 2 ^ n).
  { change 1 with (2 ^ 0). now apply pow2_le. }
  setoid_replace q with (q * 1) at 1 by ring.
  rewrite (Qmult_comm q), (Qmult_comm q). apply Qmult_le_compat_r; assumption.
Qed.

Lemma div_pow2_nonneg (q : Q) (n : Z) : 0 <= q -> 0 <= q / 2 ^ n.
Proof.
  intros Hq. apply Qle_shift_div_l; [apply pow2_pos | lra].
Qed.

Lemma tiny_le_1 : 2 ^ (-1075) <= 1.
Proof. change 1 with (2 ^ 0). now apply pow2_le. Qed.

(** A value of modest size rounds to a finite float. *)
Lemma rnd_finite (q : Q) :
  - 2 ^ 54 <= q <= 2 ^ 54 -> rnd q = Fin (round_Q q).
Proof.
  intros [Hlo Hhi]. unfold rnd.
  destruct (Qle_bool (2 ^ 1024) (Qabs (round_Q q))) eqn:E; [| reflexivity].
  exfalso. apply Qle_bool_iff in E.
  destruct (round_Q_any q) as [Hp Hn].
  pose proof tiny_le_1 as Ht.
  assert (H1 : 1 <= 2 ^ 54) by (change 1 with (2 ^ 0); now apply pow2_le).
  assert (H2 : 2 ^ 56 < 2 ^ 1024) by (apply Qpower_lt_compat_l; [lia | reflexivity]).
  assert (H3 : 2 ^ 56 == 4 * 2 ^ 54).
  { change 56%Z with (54 + 1 + 1)%Z. rewrite !pow2_succ. ring. }
  destruct (Qlt_le_dec q 0) as [Hneg | Hnn].
  - assert (Hq : q <= 0) by lra. destruct (Hn Hq) as (Hs & Ha & Hb).
    assert (Hd : - q / 2 ^ 53 <= - q) by (apply div_pow2_le; [lia | lra]).
    revert E Hs Ha Hb Hd Hlo Hhi H1 H2 H3 Ht.
    generalize (round_Q q), (- q / 2 ^ 53), (2 ^ 54), (2 ^ 56), (2 ^ 1024), (2 ^ (-1075)).
    intros r d b c h t E. revert E. apply (Qabs_case r); intros; lra.
  - destruct (Hp Hnn) as (Hs & Ha & Hb).
    assert (Hd : q / 2 ^ 53 <= q) by (apply div_pow2_le; [lia | lra]).
    revert E Hs Ha Hb Hd Hlo Hhi H1 H2 H3 Ht.
    generalize (round_Q q), (q / 2 ^ 53), (2 ^ 54), (2 ^ 56), (2 ^ 1024), (2 ^ (-1075)).
    intros r d b c h t E. revert E. apply (Qabs_case r); intros; lra.
Qed.


Lemma round_pos_int (z : Z) :
  (0 < z < 2 ^ 53)%Z -> round_pos (inject_Z z) == inject_Z z.
Proof.
  intros [Hlo Hhi].
  assert (Hpos : 0 < inject_Z z) by (change 0 with (inject_Z 0); now rewrite <- Zlt_Qlt).
  destruct (ilog2_spec _ Hpos) as [Ha Hb].
  set (l := ilog2 (inject_Z z)) in *.
  assert (Hl : (0 <= l < 53)%Z).
  { split.
    - assert (H : 2 ^ 0 < 2 ^ (l + 1)).
      { eapply Qle_lt_trans; [| exact Hb]. change (2 ^ 0) with (inject_Z 1).
        rewrite <- Zle_Qle. lia. }
      apply (Qpower_lt_compat_l_inv 2 0 (l + 1)) in H; [lia | reflexivity].
    - assert (H : 2 ^ l < 2 ^ 53).
      { eapply Qle_lt_trans; [exact Ha |]. rewrite <- pow2_of_Z by lia.
        now rewrite <- Zlt_Qlt. }
      apply (Qpower_lt_compat_l_inv 2 l 53) in H; [lia | reflexivity]. }
  rewrite round_pos_eq. unfold ulp_exp. fold l.
  rewrite Z.max_l by lia.
  set (k := (52 - l)%Z).
  assert (Ek : 2 ^ (l - 52) == / inject_Z (2 ^ k)).
  { rewrite pow2_of_Z by (subst k; lia). rewrite <- Qpower_opp.
    apply Qpower_comp; [reflexivity | subst k; lia]. }
  assert (Hk : 0 < inject_Z (2 ^ k)).
  { rewrite pow2_of_Z by (subst k; lia). apply pow2_pos. }
  assert (Em : inject_Z z / 2 ^ (l - 52) == inject_Z (z * 2 ^ k)).
  { rewrite Ek, inject_Z_mult. field. lra. }
  rewrite (round_half_even_Z _ _ Em), Ek, inject_Z_mult. field. lra.
Qed.

(** Integers below [2^53] in size are binary64 values. *)
Lemma round_Q_int (z : Z) :
  (- 2 ^ 53 < z < 2 ^ 53)%Z -> round_Q (inject_Z z) == inject_Z z.
Proof.
  intros [Hlo Hhi].
  destruct (Z.lt_trichotomy z 0) as [Hneg | [-> | Hpos]].
  - rewrite round_Q_neg by (change 0 with (inject_Z 0); now rewrite <- Zlt_Qlt).
    change (- inject_Z z) with (inject_Z (- z)).
    rewrite round_pos_int by lia. rewrite inject_Z_opp. ring.
  - reflexivity.
  - rewrite round_Q_pos by (change 0 with (inject_Z 0); now rewrite <- Zlt_Qlt).
    apply round_pos_int. lia.
Qed.

Lemma pow2_53_Z : inject_Z (2 ^ 53) == 2 ^ 53.
Proof. now apply pow2_of_Z. Qed.

Lemma to_float_int (z : Z) :
  (- 2 ^ 53 < z < 2 ^ 53)%Z ->
  exists r, to_float (PInt z) = Ok (Fin r) /\ r == inject_Z z.
Proof.
  intros H. exists (round_Q (inject_Z z)). split; [| now apply round_Q_int].
  unfold to_float. rewrite rnd_finite; [reflexivity |].
  assert (H1 : 2 ^ 53 <= 2 ^ 54) by now apply pow2_le.
  rewrite <- pow2_53_Z in H1.
  assert (H2 : - inject_Z (2 ^ 53) <= inject_Z z).
  { rewrite <- inject_Z_opp, <- Zle_Qle. lia. }
  assert (H3 : inject_Z z <= inject_Z (2 ^ 53)) by (rewrite <- Zle_Qle; lia).
  revert H1 H2 H3. generalize (inject_Z (2 ^ 53)), (2 ^ 54), (inject_Z z).
  intros; split; lra.
Qed.


Lemma div_53 (q : Q) : q / 2 ^ 53 == q * eps.
Proof.
  assert (E : 2 ^ 53 == 9007199254740992) by reflexivity.
  rewrite E. unfold eps. field.
Qed.

Lemma pow2_51 : 2 ^ 51 == 2251799813685248.
Proof. reflexivity. Qed.

Lemma pow2_53 : 2 ^ 53 == 9007199254740992.
Proof. reflexivity. Qed.

Lemma pow2_54 : 2 ^ 54 == 18014398509481984.
Proof. reflexivity. Qed.

Lemma round_Q_relative (q : Q) :
  2 ^ (-1022) <= q -> q * (1 - eps) <= round_Q q.
Proof.
  intros H. destruct (round_Q_normal q H) as [Hlo _].
  rewrite div_53 in Hlo. lra.
Qed.

Lemma round_Q_sign (q : Q) :
  (0 <= q -> 0 <= round_Q q) /\ (q <= 0 -> round_Q q <= 0).
Proof.
  destruct (round_Q_any q) as [Hp Hn].
  split; intros H; [now destruct (Hp H) | now destruct (Hn H)].
Qed.

Lemma value_cases (n : number) (v : Q) :
  value n = Some v ->
  (exists z, n = PInt z /\ v = inject_Z z) \/ n = PFloat (Fin v).
Proof.
  destruct n as [z | [q | b |]]; simpl; intros H; try discriminate;
    injection H as <-; eauto.
Qed.

Lemma modest_int (z : Z) : modest (inject_Z z) -> (- 2 ^ 53 < z < 2 ^ 53)%Z.
Proof.
  intros [Hlo Hhi]. rewrite pow2_51 in Hlo, Hhi.
  change 2251799813685248 with (inject_Z 2251799813685248) in Hlo, Hhi.
  rewrite <- inject_Z_opp, <- Zle_Qle in Hlo. rewrite <- Zle_Qle in Hhi.
  change (2 ^ 53)%Z with 9007199254740992%Z. lia.
Qed.

Lemma to_float_modest (n : number) (v : Q) :
  value n = Some v -> modest v ->
  exists x, to_float n = Ok (Fin x) /\ x == v.
Proof.
  intros Hv Hm. destruct (value_cases n v Hv) as [[z [-> ->]] | ->].
  - apply to_float_int. now apply modest_int.
  - exists v. split; reflexivity.
Qed.

(** The time range: exact on integers, rounded once otherwise. *)
Lemma time_range_spec (s e : number) (vs ve : Q) :
  value s = Some vs -> value e = Some ve -> modest vs -> modest ve ->
  exists tr t,
    PyNum.sub e s = Ok tr /\ value tr = Some t
    /\ - 2 ^ 53 <= t /\ t <= 2 ^ 53
    /\ (0 <= ve - vs -> 0 <= t) /\ (ve - vs <= 0 -> t <= 0)
    /\ (1 <= ve - vs -> (ve - vs) * (1 - eps) <= t).
Proof.
  intros Hs He Ms Me.
  assert (Hint : forall x y, x == ve -> y == vs ->
            exists t, rnd (x - y) = Fin t
              /\ - 2 ^ 53 <= t /\ t <= 2 ^ 53
              /\ (0 <= ve - vs -> 0 <= t) /\ (ve - vs <= 0 -> t <= 0)
              /\ (1 <= ve - vs -> (ve - vs) * (1 - eps) <= t)).
  { intros x y Hx Hy. exists (round_Q (x - y)).
    destruct Ms as [Ms1 Ms2], Me as [Me1 Me2].
    rewrite pow2_51 in Ms1, Ms2, Me1, Me2.
    split.
    - apply rnd_finite. rewrite pow2_54. split; lra.
    - destruct (round_Q_any (x - y)) as [Hp Hn].
      pose proof tiny_le_1 as Ht.
      rewrite pow2_53.
      assert (Hrange : - (9007199254740992) <= round_Q (x - y)
                       /\ round_Q (x - y) <= 9007199254740992).
      { destruct (Qlt_le_dec (x - y) 0) as [Hneg | Hnn].
        - assert (Hq : x - y <= 0) by lra. destruct (Hn Hq) as (H1 & H2 & H3).
          rewrite div_53 in H2, H3. unfold eps in *.
          revert Ht H1 H2 H3. generalize (round_Q (x - y)), (2 ^ (-1075)).
          intros; split; lra.
        - destruct (Hp Hnn) as (H1 & H2 & H3).
          rewrite div_53 in H2, H3. unfold eps in *.
          revert Ht H1 H2 H3. generalize (round_Q (x - y)), (2 ^ (-1075)).
          intros; split; lra. }
      destruct Hrange as [Hr1 Hr2].
      repeat split; try assumption.
      + intros H. apply (proj1 (round_Q_sign (x - y))). lra.
      + intros H. apply (proj2 (round_Q_sign (x - y))). lra.
      + intros H. eapply Qle_trans; [| apply round_Q_relative].
        * assert (E : ve - vs == x - y) by lra. rewrite E. lra.
        * apply Qle_trans with 1; [| lra].
          change 1 with (2 ^ 0). now apply pow2_le. }
  destruct (value_cases s vs Hs) as [[zs [-> ->]] | ->];
    destruct (value_cases e ve He) as [[ze [-> ->]] | ->].
  - exists (PInt (ze - zs)), (inject_Z (ze - zs)).
    destruct Ms as [Ms1 Ms2], Me as [Me1 Me2].
    rewrite pow2_51 in Ms1, Ms2, Me1, Me2. rewrite pow2_53.
    assert (E : inject_Z (ze - zs) == inject_Z ze - inject_Z zs).
    { unfold Z.sub. rewrite inject_Z_plus, inject_Z_opp. ring. }
    unfold eps.
    split; [reflexivity |]. split; [reflexivity |].
    repeat split; intros; lra.
  - destruct (to_float_int zs (modest_int zs Ms)) as [y [Hy Ey]].
    destruct (Hint ve y (Qeq_refl _) Ey) as [t [Ht Hrest]].
    exists (PFloat (Fin t)), t. cbn [PyNum.sub]. rewrite Hy. cbn [to_float bind fsub].
    rewrite Ht. split; [reflexivity |]. split; [reflexivity | exact Hrest].
  - destruct (to_float_int ze (modest_int ze Me)) as [x [Hx Ex]].
    destruct (Hint x vs Ex (Qeq_refl _)) as [t [Ht Hrest]].
    exists (PFloat (Fin t)), t. cbn [PyNum.sub]. rewrite Hx. cbn [to_float bind fsub].
    rewrite Ht. split; [reflexivity |]. split; [reflexivity | exact Hrest].
  - destruct (Hint ve vs (Qeq_refl _) (Qeq_refl _)) as [t [Ht Hrest]].
    exists (PFloat (Fin t)), t. cbn [PyNum.sub to_float bind fsub].
    rewrite Ht. split; [reflexivity |]. split; [reflexivity | exact Hrest].
Qed.


Lemma div_by_ge1 (x y : Q) :
  1 <= y -> 0 <= x -> 0 <= x / y /\ x / y <= x.
Proof.
  intros Hy Hx. assert (Hpos : 0 < y) by lra. split.
  - apply Qle_shift_div_l; [exact Hpos | lra].
  - apply Qle_shift_div_r; [exact Hpos |].
    setoid_replace x with (x * 1) at 1 by ring.
    rewrite (Qmult_comm x 1), (Qmult_comm x y). now apply Qmult_le_compat_r.
Qed.

Lemma div_opp (x y : Q) : ~ y == 0 -> x / y == - (- x / y).
Proof. intros H. now field. Qed.

Lemma quotient_core (x y t : Q) (i : Z) :
  x == t -> y == inject_Z i -> (0 < i < 2 ^ 53)%Z ->
  - 2 ^ 53 <= t -> t <= 2 ^ 53 ->
  rnd (x / y) = Fin (round_Q (x / y))
  /\ (0 <= t -> 0 <= round_Q (x / y)) /\ (t <= 0 -> round_Q (x / y) <= 0)
  /\ ((1 # 2) <= t ->
      exists w, w * inject_Z i == t /\ w * (1 - eps) <= round_Q (x / y)).
Proof.
  intros Hx Hy [Hi1 Hi2] Ht1 Ht2.
  assert (Hy1 : 1 <= y).
  { rewrite Hy. change 1 with (inject_Z 1). rewrite <- Zle_Qle. lia. }
  assert (Hy2 : y <= 2 ^ 53).
  { rewrite Hy, <- pow2_53_Z, <- Zle_Qle. lia. }
  assert (Hy0 : ~ y == 0) by lra.
  rewrite pow2_53 in Ht1, Ht2, Hy2.
  assert (Hpos : 0 <= x -> 0 <= x / y /\ x / y <= x) by (intros; now apply div_by_ge1).
  assert (Hneg : x <= 0 -> x <= x / y /\ x / y <= 0).
  { intros H. destruct (div_by_ge1 (- x) y Hy1) as [H1 H2]; [lra |].
    rewrite (div_opp x y Hy0). split; lra. }
  split; [| split; [| split]].
  - apply rnd_finite. rewrite pow2_54.
    destruct (Qlt_le_dec x 0) as [Hn | Hp].
    + destruct Hneg as [H1 H2]; [lra |]. split; lra.
    + destruct (Hpos Hp) as [H1 H2]. split; lra.
  - intros H. apply (proj1 (round_Q_sign _)). apply Hpos. lra.
  - intros H. apply (proj2 (round_Q_sign _)). apply Hneg. lra.
  - intros H. exists (x / y). split.
    + rewrite <- Hy, <- Hx. now field.
    + apply round_Q_relative.
      destruct Hpos as [H1 H2]; [lra |].
      assert (Hw : x / y * y == x) by now field.
      assert (Hm : x / y * y <= x / y * 9007199254740992).
      { rewrite (Qmult_comm _ y), (Qmult_comm _ 9007199254740992).
        now apply Qmult_le_compat_r. }
      assert (Hsmall : 2 ^ (-1022) <= 2 ^ (-54)) by now apply pow2_le.
      assert (E54 : 2 ^ (-54) == 1 # 18014398509481984) by reflexivity.
      rewrite E54 in Hsmall.
      revert Hsmall H1 Hw Hm. generalize (2 ^ (-1022)), (x / y * y), (x / y).
      intros; lra.
Qed.

Lemma quotient_spec (tr : number) (t : Q) (i : Z) :
  value tr = Some t -> - 2 ^ 53 <= t -> t <= 2 ^ 53 -> (0 < i < 2 ^ 53)%Z ->
  exists qq,
    truediv tr (PInt i) = Ok (PFloat (Fin qq))
    /\ (0 <= t -> 0 <= qq) /\ (t <= 0 -> qq <= 0)
    /\ ((1 # 2) <= t -> exists w, w * inject_Z i == t /\ w * (1 - eps) <= qq).
Proof.
  intros Hv Ht1 Ht2 Hi.
  destruct (value_cases tr t Hv) as [[d [-> ->]] | ->].
  - destruct (quotient_core (inject_Z d) (inject_Z i) (inject_Z d) i
                (Qeq_refl _) (Qeq_refl _) Hi Ht1 Ht2) as [Hr Hrest].
    exists (round_Q (inject_Z d / inject_Z i)). split; [| exact Hrest].
    cbn [truediv]. destruct (Z.eqb_spec i 0) as [-> | _]; [lia |].
    rewrite Hr. reflexivity.
  - assert (Hi' : (- 2 ^ 53 < i < 2 ^ 53)%Z) by lia.
    destruct (to_float_int i Hi') as [y [Hy Ey]].
    destruct (quotient_core t y t i (Qeq_refl _) Ey Hi Ht1 Ht2) as [Hr Hrest].
    exists (round_Q (t / y)). split; [| exact Hrest].
    unfold truediv. change (to_float (PFloat (Fin t))) with (Ok (Fin t)).
    cbn [bind]. rewrite Hy. cbn [bind fdiv].
    assert (Hz : is_zero y = false).
    { unfold is_zero. destruct (Qeq_bool y 0) eqn:E; [| reflexivity].
      apply Qeq_bool_iff in E. rewrite E in Ey.
      assert (0 < inject_Z i) by (change 0 with (inject_Z 0); rewrite <- Zlt_Qlt; lia).
      lra. }
    rewrite Hz, Hr. reflexivity.
Qed.

(** The advertised count, for a range of modest size: it is computed
    without error, has the sign of the range, and exceeds every [n] with
    [n * interval + 1 <= end - start]. *)
Lemma max_count_spec (s e : number) (vs ve : Q) (i : Z) :
  value s = Some vs -> value e = Some ve -> modest vs -> modest ve ->
  (0 < i < 2 ^ 53)%Z ->
  exists T,
    max_count_of s e i = Ok T
    /\ (vs <= ve -> (0 <= T)%Z) /\ (ve <= vs -> (T <= 0)%Z)
    /\ (forall n : Z, (0 <= n)%Z ->
          inject_Z n * inject_Z i + 1 <= ve - vs -> (n < T)%Z).
Proof.
  intros Hs He Ms Me Hi.
  destruct (time_range_spec s e vs ve Hs He Ms Me)
    as (tr & t & Hsub & Hv & Ht1 & Ht2 & Hpos & Hneg & Hrel).
  destruct (quotient_spec tr t i Hv Ht1 Ht2 Hi)
    as (qq & Hdiv & Hqpos & Hqneg & Hqrel).
  exists (Qceiling qq). unfold max_count_of. rewrite Hsub. cbn [bind].
  rewrite Hdiv. cbn [bind PyNum.ceil].
  split; [reflexivity |]. split; [| split].
  - intros H. assert (H0 : 0 <= qq) by (apply Hqpos, Hpos; lra).
    apply (Qceiling_resp_le 0 qq) in H0. exact H0.
  - intros H. assert (H0 : qq <= 0) by (apply Hqneg, Hneg; lra).
    apply (Qceiling_resp_le qq 0) in H0. exact H0.
  - intros n Hn Hroom.
    assert (Hipos : 0 < inject_Z i) by (change 0 with (inject_Z 0); rewrite <- Zlt_Qlt; lia).
    assert (Hnn : 0 <= inject_Z n) by (change 0 with (inject_Z 0); rewrite <- Zle_Qle; lia).
    assert (Hni : 0 <= inject_Z n * inject_Z i).
    { apply Qmult_le_0_compat; [exact Hnn | now apply Qlt_le_weak]. }
    assert (Hu : 1 <= ve - vs) by lra.
    specialize (Hrel Hu).
    assert (Hhalf : (1 # 2) <= t) by (unfold eps in Hrel; lra).
    destruct (Hqrel Hhalf) as (w & Hw & Hwq).
    apply Z.lt_nge. intros Hc.
    assert (Hq : qq <= inject_Z n).
    { eapply Qle_trans; [apply Qle_ceiling |]. now rewrite <- Zle_Qle. }
    assert (Hmul : w * (1 - eps) * inject_Z i <= inject_Z n * inject_Z i).
    { apply Qmult_le_compat_r; [lra | now apply Qlt_le_weak]. }
    assert (E : w * (1 - eps) * inject_Z i == t * (1 - eps)) by (rewrite <- Hw; ring).
    rewrite E in Hmul.
    destruct Ms as [Ms1 Ms2], Me as [Me1 Me2].
    rewrite pow2_51 in Ms1, Ms2, Me1, Me2.
    unfold eps in *.
    revert Hmul Hrel Hroom Hu Ms1 Ms2 Me1 Me2.
    generalize (inject_Z n * inject_Z i). intros p. intros. lra.
Qed.

End Rounding.

(** ** Literal times and file names *)

Section TimeLiterals.

Import PyStr TimeLiteral.




Example parse_time_examples :
  parse_time "01:02:03" = Ok 3723 /\ parse_time "90" = Ok 90
  /\ parse_time "1:2:3" = Raise ValueError /\ parse_time "abc" = Raise ValueError.
Proof. repeat split. Qed.

(** The slip the amended claim leaves out: [$] lets a final newline pass. *)
Example parse_time_final_newline :
  parse_time (String "0" (String "1" (String ":" (String "0" (String "2"
    (String ":" (String "0" (String "3" (String "010" ""))))))))) = Ok 3723.
Proof. reflexivity. Qed.

End TimeLiterals.

Section FileNames.

Import PyStr Scan.

Lemma digit_char_is_digit (d : Z) : 0 <= d < 10 -> is_digit (digit_char d) = true.
Proof.
  intros H.
  assert (C : d = 0 \/ d = 1 \/ d = 2 \/ d = 3 \/ d = 4 \/ d = 5 \/ d = 6
              \/ d = 7 \/ d = 8 \/ d = 9) by lia.
  repeat destruct C as [-> | C]; try reflexivity. subst. reflexivity.
Qed.

Lemma digits_fuel_head (fuel : nat) :
  forall n acc, head_digit acc -> head_digit (digits_fuel fuel n acc).
Proof.
  induction fuel as [| fuel IH]; intros n acc H; [exact H |].
  cbn [digits_fuel].
  assert (H' : head_digit (String (digit_char (n mod 10)) acc)).
  { eexists _, _. split; [reflexivity |]. apply digit_char_is_digit.
    apply Z.mod_pos_bound. lia. }
  destruct (n <? 10); [exact H' | now apply IH].
Qed.

Lemma str_nonneg_head (n : Z) : head_digit (str_nonneg n).
Proof.
  unfold str_nonneg. cbn [digits_fuel].
  assert (H' : head_digit (String (digit_char (n mod 10)) "")).
  { eexists _, _. split; [reflexivity |]. apply digit_char_is_digit.
    apply Z.mod_pos_bound. lia. }
  destruct (n <? 10); [exact H' | now apply digits_fuel_head].
Qed.



Lemma str_nonneg_fuel (n : Z) : 0 <= n -> 0 <= n < 2 ^ Z.of_nat (S (Z.to_nat (Z.log2 n))).
Proof.
  intros H. split; [exact H |].
  rewrite Nat2Z.inj_succ, Z2Nat.id by apply Z.log2_nonneg.
  destruct (Z.eq_dec n 0) as [-> | Hn]; [reflexivity |].
  apply Z.log2_spec. lia.
Qed.



Lemma zfill_digits (s : string) (width : Z) :
  head_digit s -> zfill s width = (zeros (Z.to_nat (width - len s)) ++ s)%string.
Proof.
  intros [c [r [-> Hc]]]. unfold zfill.
  destruct (digit_not_sign c Hc) as [Hp Hm].
  destruct c as [[] [] [] [] [] [] [] []]; try reflexivity; congruence.
Qed.



Example out_file_name_examples :
  out_file_name "video" 1 12 = "video_01.png"
  /\ out_file_name "video" 12 12 = "video_12.png"
  /\ out_file_name "video" 1 100 = "video_001.png"
  /\ out_file_name "video" 100 100 = "video_100.png".
Proof. repeat split. Qed.

End FileNames.

(** ** Chapter lookup *)

Section Chapters.

Import ChapterSpec.

Lemma getitem_beyond {A : Type} (l : list A) (i : Z) :
  Z.of_nat (List.length l) <= i -> Py.getitem l i = Raise IndexError.
Proof.
  intros H. unfold Py.getitem.
  destruct (Z.ltb_spec i 0) as [? | _]; [lia |].
  destruct (Z.ltb_spec i (Z.of_nat (List.length l))) as [? | _]; [lia |].
  now rewrite andb_false_r.
Qed.

(** C9: an ordinal beyond the last chapter makes the lookup fail with an
    out-of-bounds indexing error; it neither returns absent nor falls
    through to the title or the literal time. *)
Theorem chapter_number_beyond_last (chapters : list Chapter.t) (chapter_num : Z)
    (chapter_name : option string) (k : key) :
  Z.of_nat (List.length chapters) < chapter_num ->
  get_chapter_time chapters (Some chapter_num) chapter_name k = Raise IndexError.
Proof.
  intros H. unfold get_chapter_time. cbn [truthy_int].
  destruct (Z.eqb_spec chapter_num 0) as [? | _]; [lia |]. cbn [negb].
  rewrite getitem_beyond by lia. reflexivity.
Qed.

Lemma chapter_number_beyond_last_witness :
  get_chapter_time Samples.two_chapters (Some 3) None start_time_key = Raise IndexError.
Proof.
  apply (chapter_number_beyond_last Samples.two_chapters 3 None start_time_key).
  simpl. lia.
Defined.

Lemma scan_chapters_titled (chapters : list Chapter.t) (title : string) (k : key) :
  Forall titled chapters ->
  scan_chapters chapters title k = Ok (first_titled chapters title k).
Proof.
  unfold first_titled. induction 1 as [| c cs [t Ht] _ IH]; [reflexivity |].
  cbn [scan_chapters List.find]. unfold chapter_title, has_title. rewrite Ht.
  cbn [bind]. destruct (String.eqb t title); [reflexivity | exact IH].
Qed.

(** C7, as stated, fails: an empty title counts as no title, so a chapter
    whose title is empty is never found; and a chapter without a title
    stops the scan with a key error before a later match is reached. *)
Lemma chapter_title_lookup_gaps :
  (first_titled [Samples.empty_title] "" start_time_key = Some (Fin 0)
   /\ get_chapter_time [Samples.empty_title] None (Some "") start_time_key = Ok None)
  /\ (first_titled [Samples.untitled; Samples.main] "Main" start_time_key = Some (Fin 100)
      /\ get_chapter_time [Samples.untitled; Samples.main] None (Some "Main") start_time_key
         = Raise KeyError).
Proof. repeat split. Qed.

(** C7 (amended): ordinal 0 behaves as no ordinal; without an ordinal, a
    non-empty title on a list whose chapters all carry a title returns the
    field of the first chapter with exactly that title, absent when there is
    none; an empty title, like no title, returns absent. *)
Theorem chapter_lookup_rules (chapters : list Chapter.t) (chapter_name : option string)
    (k : key) :
  get_chapter_time chapters (Some 0) chapter_name k
  = get_chapter_time chapters None chapter_name k
  /\ (forall title, title <> "" -> Forall titled chapters ->
        get_chapter_time chapters None (Some title) k
        = Ok (first_titled chapters title k))
  /\ get_chapter_time chapters None (Some "") k = Ok None
  /\ get_chapter_time chapters None None k = Ok None.
Proof.
  split; [reflexivity |]. split; [| split; reflexivity].
  intros title Hne Hall. unfold get_chapter_time. cbn [truthy_int truthy_str].
  destruct (String.eqb_spec title "") as [? | _]; [contradiction |].
  cbn [negb]. now apply scan_chapters_titled.
Qed.

Lemma chapter_lookup_rules_witness :
  get_chapter_time Samples.two_chapters None (Some "Main") end_time_key = Ok (Some (Fin 200)).
Proof.
  apply (proj1 (proj2 (chapter_lookup_rules Samples.two_chapters None end_time_key))).
  - discriminate.
  - repeat constructor; eexists; reflexivity.
Defined.

Example chapter_time_examples :
  get_chapter_time Samples.two_chapters (Some 2) None start_time_key = Ok (Some (Fin 100))
  /\ get_chapter_time Samples.two_chapters None (Some "Main") end_time_key
     = Ok (Some (Fin 200))
  /\ get_chapter_time Samples.two_chapters None None start_time_key = Ok None
  /\ get_chapter_time Samples.two_chapters None (Some "main") end_time_key = Ok None.
Proof. repeat split. Qed.




End Chapters.

(** ** The schedule and the advertised count *)

Section Ranges.

Import Py.

Lemma Zseq_length (n : Z) : List.length (Zseq n) = Z.to_nat n.
Proof. unfold Zseq. now rewrite length_map, length_seq. Qed.


Lemma enumerate_length {A : Type} (l : list A) (start : Z) :
  List.length (enumerate l start) = List.length l.
Proof. revert start. induction l; intros; simpl; auto. Qed.

Lemma enumerate_map_seq {A : Type} (f : Z -> A) (n a : nat) (start : Z) :
  enumerate (List.map f (List.map Z.of_nat (List.seq a n))) start
  = List.map (fun k => (k - Z.of_nat a + start, f k)) (List.map Z.of_nat (List.seq a n)).
Proof.
  revert a start. induction n as [| n IH]; intros a start; [reflexivity |].
  cbn [List.seq List.map enumerate]. f_equal.
  - f_equal. lia.
  - rewrite IH. apply map_ext_in. intros k Hk.
    apply in_map_iff in Hk. destruct Hk as [i [<- Hi]]. apply in_seq in Hi.
    f_equal. lia.
Qed.

Lemma enumerate_Zseq {A : Type} (f : Z -> A) (n : Z) :
  enumerate (List.map f (Zseq n)) 1 = List.map (fun k => (k + 1, f k)) (Zseq n).
Proof.
  unfold Zseq. rewrite enumerate_map_seq. apply map_ext. intros k. f_equal. lia.
Qed.

(** For a positive step, the length of a range counts exactly the [k] whose
    item [start + k * step] is below [stop]. *)
Lemma range_length_spec (start stop step : Z) :
  0 < step ->
  0 <= range_length start stop step
  /\ forall k, 0 <= k -> (k < range_length start stop step <-> start + k * step < stop).
Proof.
  intros Hs. unfold range_length.
  destruct (Z.ltb_spec 0 step) as [_ | ?]; [| lia].
  destruct (Z.leb_spec stop start) as [Hle | Hlt].
  - split; [lia |]. intros k Hk. split; [lia | nia].
  - pose proof (Z.div_mod (stop - start - 1) step ltac:(lia)) as Hdm.
    pose proof (Z.mod_pos_bound (stop - start - 1) step Hs) as Hm.
    assert (0 <= (stop - start - 1) / step) by (apply Z.div_pos; lia).
    split; [lia |]. intros k Hk. split; intros H'; nia.
Qed.


Lemma ceil_value (n : number) (v : Q) : value n = Some v -> PyNum.ceil n = Ok (Qceiling v).
Proof.
  destruct n as [z | [q | b |]]; simpl; intros H; try discriminate; injection H as <-.
  - now rewrite Qceiling_Z.
  - reflexivity.
Qed.

Lemma floor_value (n : number) (v : Q) : value n = Some v -> PyNum.floor n = Ok (Qfloor v).
Proof.
  destruct n as [z | [q | b |]]; simpl; intros H; try discriminate; injection H as <-.
  - now rewrite Qfloor_Z.
  - reflexivity.
Qed.

Lemma schedule_value (start_time end_time : number) (vs ve : Q) (interval : Z) :
  value start_time = Some vs -> value end_time = Some ve -> interval <> 0 ->
  schedule start_time end_time interval
  = Ok (List.map (fun k => (k + 1, Qceiling vs + k * interval))
          (Zseq (range_length (Qceiling vs) (Qfloor ve) interval))).
Proof.
  intros Hs He Hi. unfold schedule.
  rewrite (ceil_value _ _ Hs), (floor_value _ _ He). cbn [bind].
  unfold range. destruct (Z.eqb_spec interval 0) as [E | _]; [contradiction |].
  cbn [bind]. now rewrite enumerate_Zseq.
Qed.



Example schedule_0_61_20 :
  schedule (PInt 0) (PFloat (Fin 61)) 20 = Ok [(1, 0); (2, 20); (3, 40); (4, 60)].
Proof. reflexivity. Qed.

(** C6, as stated, fails: half a second of media from 0 and an interval of
    20 give no entry at all. *)
Lemma schedule_short_range_empty :
  (0 < 1 # 2)%Q /\ (inject_Z 20 > (1 # 2) - 0)%Q
  /\ schedule (PInt 0) (PFloat (Fin (1 # 2))) 20 = Ok [].
Proof. repeat split. Qed.

(** C6 (amended): with [end > start] and an interval longer than the range,
    the schedule is the single entry at [ceil(start)] when
    [ceil(start) < floor(end)], and is empty otherwise. *)
Theorem schedule_long_interval (start_time end_time : number) (vs ve : Q) (interval : Z) :
  value start_time = Some vs -> value end_time = Some ve ->
  (vs < ve)%Q -> (ve - vs < inject_Z interval)%Q ->
  schedule start_time end_time interval
  = Ok (if Qceiling vs <? Qfloor ve then [(1, Qceiling vs)] else []).
Proof.
  intros Hs He Hlt Hi.
  assert (Hpos : 0 < interval).
  { rewrite Zlt_Qlt. change (inject_Z 0) with 0%Q. lra. }
  rewrite (schedule_value _ _ vs ve interval Hs He) by lia.
  pose proof (Qle_ceiling vs) as Hc. pose proof (Qfloor_le ve) as Hf.
  assert (Hroom : Qfloor ve - Qceiling vs < interval).
  { rewrite Zlt_Qlt. unfold Z.sub. rewrite inject_Z_plus, inject_Z_opp. lra. }
  unfold range_length.
  destruct (Z.ltb_spec 0 interval) as [_ | ?]; [| lia].
  destruct (Z.ltb_spec (Qceiling vs) (Qfloor ve)) as [H | H];
    destruct (Z.leb_spec (Qfloor ve) (Qceiling vs)) as [H' | H']; try lia.
  - rewrite Z.div_small by lia. change (Zseq (0 + 1)) with [0].
    cbn [List.map]. rewrite Z.mul_0_l, Z.add_0_r. reflexivity.
  - reflexivity.
Qed.

Lemma schedule_long_interval_witness :
  schedule (PInt 10) (PFloat (Fin (25 # 2))) 20
  = Ok (if Qceiling 10 <? Qfloor (25 # 2) then [(1, Qceiling 10)] else []).
Proof.
  apply (schedule_long_interval (PInt 10) (PFloat (Fin (25 # 2))) 10 (25 # 2) 20);
    reflexivity.
Defined.

End Ranges.

Section Counts.

Import Py Bounds.

(** C4, as stated, fails: the advertised count is a rounded quotient.  One
    second of media with an interval of [10^400] advertises 0 screenshots
    and emits one; and from 0 to [3 * 2^52 + 1] with interval 3 the quotient
    rounds down to [2^52] while the loop runs [2^52 + 1] times. *)
Lemma advertised_count_too_small :
  (max_count_of (PInt 0) (PInt 1) (10 ^ 400) = Ok 0
   /\ schedule (PInt 0) (PInt 1) (10 ^ 400) = Ok [(1, 0)])
  /\ (max_count_of (PInt 0) (PInt 13510798882111489) 3 = Ok (2 ^ 52)
      /\ exists entries,
           schedule (PInt 0) (PInt 13510798882111489) 3 = Ok entries
           /\ Z.of_nat (List.length entries) = 2 ^ 52 + 1).
Proof.
  split; [split; vm_compute; reflexivity |].
  split; [vm_compute; reflexivity |].
  eexists. split.
  - apply (schedule_value (PInt 0) (PInt 13510798882111489)
             (inject_Z 0) (inject_Z 13510798882111489) 3); [reflexivity | reflexivity | lia].
  - rewrite length_map, Zseq_length, !Qceiling_Z, !Qfloor_Z.
    rewrite Z2Nat.id by (vm_compute; discriminate).
    vm_compute. reflexivity.
Qed.

(** C4 (amended): for a range with [end > start] whose ends are within
    [2^51] seconds of zero and an interval with [0 < interval < 2^53], the
    scheduling loop emits at most [max_count] timestamps. *)
Theorem emitted_le_advertised (start_time end_time : number) (vs ve : Q) (interval : Z) :
  value start_time = Some vs -> value end_time = Some ve ->
  modest vs -> modest ve -> (vs < ve)%Q -> 0 < interval < 2 ^ 53 ->
  exists max_count entries,
    max_count_of start_time end_time interval = Ok max_count
    /\ schedule start_time end_time interval = Ok entries
    /\ Z.of_nat (List.length entries) <= max_count.
Proof.
  intros Hs He Ms Me Hlt Hi.
  destruct (max_count_spec _ _ vs ve interval Hs He Ms Me Hi)
    as (T & HT & Hnn & _ & Hroom).
  destruct (range_length_spec (Qceiling vs) (Qfloor ve) interval (proj1 Hi)) as [Hn Hk].
  set (n := range_length (Qceiling vs) (Qfloor ve) interval) in *.
  exists T, (List.map (fun k => (k + 1, Qceiling vs + k * interval)) (Zseq n)).
  split; [exact HT |]. split.
  - apply (schedule_value _ _ vs ve interval Hs He). lia.
  - rewrite length_map, Zseq_length, Z2Nat.id by exact Hn.
    destruct (Z.eq_dec n 0) as [-> | Hn0].
    + apply Hnn. lra.
    + assert (Hlast : Qceiling vs + (n - 1) * interval < Qfloor ve) by (apply Hk; lia).
      assert (n - 1 < T); [| lia].
      apply Hroom; [lia |].
      pose proof (Qle_ceiling vs) as Hc. pose proof (Qfloor_le ve) as Hf.
      assert (H : (inject_Z ((n - 1) * interval + 1) <= inject_Z (Qfloor ve - Qceiling vs))%Q).
      { rewrite <- Zle_Qle. lia. }
      rewrite inject_Z_plus, inject_Z_mult in H.
      unfold Z.sub in H at 2. rewrite inject_Z_plus, inject_Z_opp in H.
      change (inject_Z 1) with 1%Q in H. lra.
Qed.

Lemma emitted_le_advertised_witness :
  exists max_count entries,
    max_count_of (PInt 0) (PFloat (Fin 61)) 20 = Ok max_count
    /\ schedule (PInt 0) (PFloat (Fin 61)) 20 = Ok entries
    /\ Z.of_nat (List.length entries) <= max_count.
Proof.
  apply (emitted_le_advertised (PInt 0) (PFloat (Fin 61)) 0 61 20);
    try reflexivity; try (split; discriminate); lia.
Defined.

End Counts.

(** ** Whole runs *)

Section Runs.

Variable stem : string -> string.
Variable parent : string -> string.
Variable joinpath : string -> string -> string.
Variable probe : string -> result probe_data.
Variable mkdir_ok : string -> bool.
Variable run_ok : string -> Z -> string -> bool.

Local Notation "'try_block'" := (body stem parent joinpath probe mkdir_ok run_ok).
Local Notation "'run'" :=
  (generate_screenshots stem parent joinpath probe mkdir_ok run_ok).
Local Notation "'out_dir'" := (out_path_of parent joinpath).

Import Bounds.

Lemma print_chapter_lines_quiet (l : list (Z * Chapter.t)) :
  Forall quiet
    (fst (for_each l (fun '(idx, chapter) =>
       match Chapter.tags chapter with
       | Some tags =>
           emit (printed (chapter_line idx (Chapter.start_time chapter)
                            (match tags with Some title => title | None => "" end)))
       | None => lift (Raise KeyError)
       end))).
Proof.
  induction l as [| [idx c] l IH]; [constructor |].
  cbn [for_each]. destruct (Chapter.tags c) as [tags |].
  - cbn [emit and_then].
    match goal with |- context [for_each l ?f] => destruct (for_each l f) as [t r] end.
    cbn [fst] in *. cbn. constructor; [split; reflexivity | exact IH].
  - cbn. constructor.
Qed.

Lemma simulated_loop (in_file out_path : string) (max_count : Z) (entries : list (Z * Z)) :
  for_each entries (fun '(count, timestamp) =>
    emit (progress count timestamp) ;;;
    if true then ret tt
    else
      let out_file := out_file_name (stem in_file) count max_count in
      let out_fullpath := joinpath out_path out_file in
      emit (ffmpeg_run in_file timestamp out_fullpath) ;;;
      if run_ok in_file timestamp out_fullpath then ret tt
      else lift (Raise ffmpeg_Error))
  = (List.map (fun '(count, timestamp) => progress count timestamp) entries, value_of tt).
Proof.
  induction entries as [| [c t] entries IH]; [reflexivity |].
  cbn [for_each]. rewrite IH. reflexivity.
Qed.

Lemma progress_not_run (entries : list (Z * Z)) :
  Forall (fun ev => is_run ev = false)
    (List.map (fun '(count, timestamp) => progress count timestamp) entries).
Proof. induction entries as [| [c t] l IH]; constructor; auto. Qed.

(** The shape of a simulated run: either nothing but the probe and printed
    lines, or the probe, the directory, and then no extraction. *)
Lemma simulated_body (args : Args.t) :
  Args.simulate args = true ->
  Forall quiet (fst (try_block args))
  \/ exists rest,
       fst (try_block args) = probed (Args.in_file args) :: mkdir (out_dir args) :: rest
       /\ Forall (fun ev => is_run ev = false) rest.
Proof.
  intros Hsim. unfold body. rewrite Hsim.
  cbn [emit and_then].
  destruct (probe (Args.in_file args)) as [p | e]; cbn [lift and_then];
    [| left; repeat constructor].
  destruct (Args.print_chapters args); cbn [when].
  - left. unfold print_chapter_lines.
    pose proof (print_chapter_lines_quiet (Py.enumerate (chapters p) 1)) as Hq.
    match goal with |- context [for_each ?l ?f] => destruct (for_each l f) as [t [[] | e | c]] end;
      cbn in Hq |- *; constructor; try (split; reflexivity); try exact Hq.
    rewrite app_nil_r. exact Hq.
  - cbn [ret and_then app]. unfold ensure_directory.
    destruct (mkdir_ok (out_dir args)); cbn [emit lift and_then app];
      [| left; repeat constructor].
    right.
    destruct (start_time_of (chapters p) args) as [s | e]; cbn [lift and_then app];
      [| eexists; split; [reflexivity | constructor]].
    destruct (end_time_of (chapters p) (duration p) args) as [eo | e];
      cbn [lift and_then app]; [| eexists; split; [reflexivity | constructor]].
    destruct eo as [e |]; cbn [some_or_type_error lift and_then app];
      [| eexists; split; [reflexivity | constructor]].
    destruct (max_count_of s e (Args.interval args)) as [T | x]; cbn [lift and_then app];
      [| eexists; split; [reflexivity | constructor]].
    rewrite orb_true_r. cbn [when emit and_then app].
    destruct (schedule s e (Args.interval args)) as [entries | x];
      cbn [lift and_then app];
      [| eexists; split; [reflexivity | repeat constructor]].
    rewrite (simulated_loop (Args.in_file args) (out_dir args) T). cbn [app].
    eexists; split; [reflexivity |].
    repeat (constructor; [reflexivity |]). apply progress_not_run.
Qed.


Lemma body_reaches_mkdir (args : Args.t) (p : probe_data) :
  probe (Args.in_file args) = Ok p -> Args.print_chapters args = false ->
  mkdir_ok (out_dir args) = true ->
  exists rest, fst (try_block args)
               = probed (Args.in_file args) :: mkdir (out_dir args) :: rest.
Proof.
  intros Hp Hc Hm. unfold body. rewrite Hp, Hc.
  cbn [emit lift when ret and_then app]. unfold ensure_directory. rewrite Hm.
  cbn [emit and_then app fst snd]. eexists. reflexivity.
Qed.

Lemma trace_of_run (args : Args.t) :
  fst (run args) = fst (try_block args)
  \/ exists e, fst (run args) = fst (try_block args) ++ [error_printed e].
Proof.
  unfold generate_screenshots.
  destruct (try_block args) as [t [[] | e | c]]; cbn [fst]; eauto.
Qed.

Lemma In_before_progress (before after rest : list event) (a b : event) (c ts : Z) :
  is_progress a = false -> is_progress b = false ->
  before ++ progress c ts :: after = a :: b :: rest -> In b before.
Proof.
  intros Ha Hb H.
  destruct before as [| x [| y before]]; cbn in H.
  - injection H as <- _. discriminate.
  - injection H as _ <- _. discriminate.
  - injection H as _ <- _. right; now left.
Qed.

(** C10: in simulate mode no extraction is issued, so no image file is
    made; every step of the scheduling loop comes after the creation of the
    output directory; and the directory is created whenever the probe
    succeeds, the run is not a chapter listing, and the directory can be
    made. *)
Theorem simulate_still_creates_directory (args : Args.t) :
  Args.simulate args = true ->
  (forall ev, In ev (fst (run args)) -> is_run ev = false)
  /\ (forall before count timestamp after,
        fst (run args) = before ++ progress count timestamp :: after ->
        In (mkdir (out_dir args)) before)
  /\ (forall p, probe (Args.in_file args) = Ok p -> Args.print_chapters args = false ->
        mkdir_ok (out_dir args) = true ->
        exists rest,
          fst (run args)
          = probed (Args.in_file args) :: mkdir (out_dir args) :: rest).
Proof.
  intros Hsim.
  pose proof (simulated_body args Hsim) as Hshape.
  pose proof (trace_of_run args) as Htrace.
  split; [| split].
  - intros ev Hin.
    assert (Hb : forall ev, In ev (fst (try_block args)) -> is_run ev = false).
    { destruct Hshape as [Hq | [rest [-> Hr]]].
      - intros x Hx. rewrite Forall_forall in Hq. now destruct (Hq x Hx).
      - intros x [<- | [<- | Hx]]; try reflexivity.
        rewrite Forall_forall in Hr. now apply Hr. }
    destruct Htrace as [E | [e E]]; rewrite E in Hin.
    + now apply Hb.
    + apply in_app_or in Hin. destruct Hin as [Hin | [<- | []]];
        [now apply Hb | reflexivity].
  - intros before count timestamp after H.
    assert (Hin : In (progress count timestamp) (fst (try_block args))).
    { destruct Htrace as [E | [e E]]; rewrite E in H.
      - rewrite H. apply in_elt.
      - assert (Hin : In (progress count timestamp) (fst (try_block args) ++ [error_printed e]))
          by (rewrite H; apply in_elt).
        apply in_app_or in Hin. destruct Hin as [Hin | [Hin | []]];
          [exact Hin | discriminate]. }
    destruct Hshape as [Hq | [rest [Hb Hr]]].
    + rewrite Forall_forall in Hq. destruct (Hq _ Hin) as [_ Hq']. discriminate.
    + destruct Htrace as [E | [e E]]; rewrite E, Hb in H.
      * symmetry in H. eapply In_before_progress; [| | exact H]; reflexivity.
      * symmetry in H. cbn [app] in H.
        eapply In_before_progress; [| | exact H]; reflexivity.
  - intros p Hp Hc Hm.
    destruct (body_reaches_mkdir args p Hp Hc Hm) as [rest Hb].
    destruct Htrace as [E | [e E]]; rewrite E, Hb; eauto.
    exists (rest ++ [error_printed e]). reflexivity.
Qed.

(** A range with [end <= start] is not rejected: the run goes on to an
    empty schedule. *)
Lemma schedule_reversed (start_time end_time : number) (vs ve : Q) (interval : Z) :
  value start_time = Some vs -> value end_time = Some ve ->
  (ve <= vs)%Q -> 0 < interval ->
  schedule start_time end_time interval = Ok [].
Proof.
  intros Hs He Hle Hi.
  rewrite (schedule_value _ _ vs ve interval Hs He) by lia.
  pose proof (Qle_ceiling vs) as Hc. pose proof (Qfloor_le ve) as Hf.
  assert (Qfloor ve <= Qceiling vs) by (rewrite Zle_Qle; lra).
  unfold Py.range_length.
  destruct (Z.ltb_spec 0 interval) as [_ | ?]; [| lia].
  destruct (Z.leb_spec (Qfloor ve) (Qceiling vs)) as [_ | ?]; [reflexivity | lia].
Qed.

(** C1 (amended): a range with [end <= start] is not rejected.  When the
    probe succeeds, the run is not a chapter listing, the directory can be
    made, both ends are within [2^51] seconds of zero and
    [0 < interval < 2^53], the run returns normally, with no step of the
    loop and no extraction. *)
Theorem reversed_range_completes (args : Args.t) (p : probe_data)
    (start_time end_time : number) (vs ve : Q) :
  probe (Args.in_file args) = Ok p -> Args.print_chapters args = false ->
  mkdir_ok (out_dir args) = true ->
  start_time_of (chapters p) args = Ok start_time ->
  end_time_of (chapters p) (duration p) args = Ok (Some end_time) ->
  value start_time = Some vs -> value end_time = Some ve ->
  modest vs -> modest ve -> (ve <= vs)%Q -> 0 < Args.interval args < 2 ^ 53 ->
  snd (run args) = returned
  /\ Forall quiet (fst (run args)).
Proof.
  intros Hp Hc Hm Hs He Hvs Hve Ms Me Hle Hi.
  destruct (max_count_spec _ _ vs ve _ Hvs Hve Ms Me Hi) as (T & HT & _).
  pose proof (schedule_reversed _ _ vs ve _ Hvs Hve Hle (proj1 Hi)) as Hsched.
  unfold generate_screenshots, body. rewrite Hp, Hc.
  cbn [emit lift when ret and_then app]. unfold ensure_directory. rewrite Hm.
  cbn [emit and_then app]. rewrite Hs. cbn [lift and_then app].
  rewrite He. cbn [lift some_or_type_error and_then app].
  rewrite HT. cbn [lift and_then app]. rewrite Hsched.
  destruct (Args.verbose args || Args.simulate args);
    cbn [when emit lift ret and_then app for_each fst snd];
    (split; [reflexivity | repeat (constructor; [split; reflexivity |]); constructor]).
Qed.

End Runs.

(** C1, as stated, fails: with start 50 and end 30 the run makes the
    directory and returns normally; nothing rejects the range. *)
Lemma reversed_range_is_not_rejected :
  Samples.run Samples.from_50_to_30
  = ([probed "video.mkv"; mkdir "./screenshots"], returned).
Proof. vm_compute. reflexivity. Qed.

Lemma reversed_range_completes_witness :
  snd (Samples.run Samples.from_50_to_30)
  = returned
  /\ Forall quiet
       (fst (Samples.run
               Samples.from_50_to_30)).
Proof.
  apply (reversed_range_completes Samples.stem Samples.parent Samples.joinpath
           Samples.probe Samples.mkdir_ok Samples.run_ok
           Samples.from_50_to_30
           {| chapters := Samples.two_chapters; duration := Fin 300 |}
           (PInt 50) (PInt 30) (inject_Z 50) (inject_Z 30));
    try reflexivity; try (split; discriminate); try discriminate.
  cbn. lia.
Defined.

Lemma simulate_still_creates_directory_witness :
  exists rest,
    fst (Samples.run Samples.simulated)
    = probed "video.mkv" :: mkdir "./screenshots" :: rest.
Proof.
  apply (proj2 (proj2 (simulate_still_creates_directory Samples.stem Samples.parent
                         Samples.joinpath Samples.probe Samples.mkdir_ok Samples.run_ok
                         Samples.simulated eq_refl))
           {| chapters := Samples.two_chapters; duration := Fin 300 |});
    reflexivity.
Defined.

Example simulated_run :
  Samples.run Samples.simulated
  = ([probed "video.mkv"; mkdir "./screenshots";
      printed (input_file_line "video.mkv");
      printed (output_directory_line "./screenshots");
      printed (start_time_line (PInt 0));
      printed (end_time_line (PFloat (Fin 300)));
      printed (interval_line 20);
      printed (total_screenshots_line 15)]
     ++ List.map (fun k => progress (k + 1) (k * 20)) (Py.Zseq 15),
     returned).
Proof. vm_compute. reflexivity. Qed.

(** A whole run with the default options: fifteen extractions, each file
    named with the two-digit width of the advertised count. *)
Example default_run_file_names :
  Samples.run (Samples.default_args "video.mkv")
  = ([probed "video.mkv"; mkdir "./screenshots"]
     ++ List.flat_map
          (fun k => [progress (k + 1) (k * 20);
                     ffmpeg_run "video.mkv" (k * 20)
                       ("./screenshots/" ++ out_file_name "video" (k + 1) 15)%string])
          (Py.Zseq 15),
     returned)
  /\ out_file_name "video" 1 15 = "video_01.png"
  /\ out_file_name "video" 15 15 = "video_15.png".
Proof. repeat split; vm_compute; reflexivity. Qed.

(** * Further properties *)

(** ** Writing and reading numbers *)

Section WritingNumbers.

Import PyStr TimeLiteral Scan.

Lemma digit_char_value (d : Z) : 0 <= d < 10 -> digit_value (digit_char d) = d.
Proof.
  intros H.
  assert (C : d = 0 \/ d = 1 \/ d = 2 \/ d = 3 \/ d = 4 \/ d = 5 \/ d = 6
              \/ d = 7 \/ d = 8 \/ d = 9) by lia.
  repeat destruct C as [-> | C]; try reflexivity. subst. reflexivity.
Qed.

(** The digits written for [n], read back by position, give [n]. *)
Lemma digits_fuel_value (fuel : nat) :
  forall n acc, 0 <= n < 2 ^ Z.of_nat fuel -> all_digits acc = true ->
    all_digits (digits_fuel fuel n acc) = true
    /\ decimal (digits_fuel fuel n acc)
       = n * 10 ^ Z.of_nat (String.length acc) + decimal acc.
Proof.
  induction fuel as [| fuel IH]; intros n acc H Hacc.
  - cbn [digits_fuel]. split; [exact Hacc |]. cbn in H. nia.
  - cbn [digits_fuel].
    pose proof (Z.mod_pos_bound n 10 ltac:(lia)) as Hm.
    pose proof (Z.div_mod n 10 ltac:(lia)) as Hdm.
    assert (Hacc' : all_digits (String (digit_char (n mod 10)) acc) = true).
    { cbn [all_digits]. now rewrite digit_char_is_digit, Hacc. }
    assert (Hdec : decimal (String (digit_char (n mod 10)) acc)
                   = (n mod 10) * 10 ^ Z.of_nat (String.length acc) + decimal acc).
    { cbn [decimal]. now rewrite digit_char_value. }
    destruct (Z.ltb_spec n 10) as [Hlt | Hge].
    + split; [exact Hacc' |]. rewrite Hdec. rewrite Z.mod_small by lia. reflexivity.
    + rewrite Nat2Z.inj_succ, Z.pow_succ_r in H by lia.
      destruct (IH (n / 10) (String (digit_char (n mod 10)) acc)) as [Ha Hv]; auto.
      { split; [apply Z.div_pos; lia | apply Z.div_lt_upper_bound; lia]. }
      split; [exact Ha |]. rewrite Hv, Hdec. cbn [String.length].
      rewrite Nat2Z.inj_succ, Z.pow_succ_r by lia.
      set (p := 10 ^ Z.of_nat (String.length acc)). nia.
Qed.

Lemma str_nonneg_plain (n : Z) :
  0 <= n -> plain_integer (str_nonneg n) = true /\ decimal (str_nonneg n) = n.
Proof.
  intros H. unfold str_nonneg.
  destruct (digits_fuel_value _ n "" (str_nonneg_fuel n H) eq_refl) as [Ha Hv].
  split.
  - destruct (str_nonneg_head n) as [c [r [E _]]]. unfold str_nonneg in E.
    rewrite E in Ha |- *. exact Ha.
  - rewrite Hv. cbn. lia.
Qed.






Lemma int_two_digits_newline (a b : ascii) :
  is_digit a = true -> is_digit b = true ->
  int (String a (String b (String "010" ""))) = Ok (two_digits a b).
Proof.
  intros Ha Hb. apply int_spec.
  exists "", "", 1, (String a (String b "")), (String "010" "").
  destruct (all_digits_groups a (String b "")) as [Hg Hw].
  { cbn. now rewrite Ha, Hb. }
  rewrite Hw. repeat split; auto; try constructor.
  unfold two_digits. cbn [decimal String.length].
  change (Z.of_nat 1) with 1. change (Z.of_nat 0) with 0. lia.
Qed.

Lemma parse_time_clock_then_newline (s : string) :
  clock_shaped s = true ->
  parse_time (s ++ String "010" "") = Ok (clock_seconds s).
Proof.
  intros H.
  destruct (clock_shaped_inv s H)
    as (h1 & h2 & m1 & m2 & s1 & s2 & -> & H1 & H2 & H3 & H4 & H5 & H6).
  cbn [append]. unfold parse_time, re_match_clock.
  rewrite H1, H2, H3, H4, H5, H6. cbn [andb orb Ascii.eqb Bool.eqb String.eqb].
  rewrite !split_digit, !split_colon, !split_digit, !split_colon, !split_digit
    by assumption.
  assert (Hnl : split ":" (String "010" "") = [String "010" ""]) by reflexivity.
  rewrite Hnl. cbn [map_result bind].
  rewrite !int_two_digits, int_two_digits_newline by assumption.
  reflexivity.
Qed.

Lemma all_digits_append (a b : string) :
  all_digits (a ++ b) = all_digits a && all_digits b.
Proof.
  induction a as [| c a IH]; [reflexivity |].
  cbn [append all_digits]. now rewrite IH, andb_assoc.
Qed.

Lemma zeros_digits (k : nat) : all_digits (zeros k) = true.
Proof. induction k; [reflexivity | exact IHk]. Qed.

Lemma decimal_zeros (k : nat) (s : string) : decimal (zeros k ++ s) = decimal s.
Proof. induction k as [| k IH]; [reflexivity |]. cbn [zeros append decimal]. now rewrite IH. Qed.

Lemma plain_zeros_append (k : nat) (s : string) :
  plain_integer s = true ->
  plain_integer (zeros k ++ s) = true /\ decimal (zeros k ++ s) = decimal s.
Proof.
  intros H. split; [| apply decimal_zeros].
  destruct s as [| c r]; [discriminate |].
  assert (Ha : all_digits (zeros k ++ String c r) = true).
  { rewrite all_digits_append, zeros_digits. exact H. }
  destruct k; exact Ha.
Qed.

(** Padding with zeros does not change what is read back. *)
Lemma int_zfill_str (n width : Z) : int (zfill (str n) width) = Ok n.
Proof.
  unfold str. destruct (Z.ltb_spec n 0) as [Hneg | Hpos].
  - destruct (str_nonneg_plain (- n) ltac:(lia)) as [Hp Hv].
    cbn [zfill].
    set (k := Z.to_nat (width - len (String "-" (str_nonneg (- n))))).
    destruct (plain_zeros_append k _ Hp) as [Hp' Hv'].
    remember (zeros k ++ str_nonneg (- n))%string as padded eqn:E.
    destruct padded as [| c r]; [discriminate |].
    destruct (all_digits_groups c r Hp') as [Hg Hw].
    apply int_spec. exists "", "-", (-1), (String c r), "".
    rewrite Hw, Hv', Hv. cbn [append]. rewrite append_nil_r.
    repeat split; auto; try constructor. lia.
  - destruct (str_nonneg_plain n Hpos) as [Hp Hv].
    rewrite (zfill_digits _ _ (str_nonneg_head n)).
    destruct (plain_zeros_append (Z.to_nat (width - len (str_nonneg n))) _ Hp) as [Hp' Hv'].
    rewrite (int_plain _ Hp'). now rewrite Hv', Hv.
Qed.

Lemma append_inv_head (s a b : string) : (s ++ a = s ++ b)%string -> a = b.
Proof. induction s as [| c s IH]; cbn [append]; [auto |]. intros H. injection H. exact IH. Qed.

Lemma append_inv_tail (t : string) :
  forall a b : string, (a ++ t = b ++ t)%string -> a = b.
Proof.
  intros a. induction a as [| c a IH]; intros b H.
  - destruct b as [| d b]; [reflexivity |].
    apply (f_equal String.length) in H.
    cbn [append String.length] in H. rewrite length_append in H. lia.
  - destruct b as [| d b].
    + apply (f_equal String.length) in H.
      cbn [append String.length] in H. rewrite length_append in H. lia.
    + cbn [append] in H. injection H as -> H. f_equal. now apply IH.
Qed.

End WritingNumbers.

Section LiteralExtras.

Import PyStr TimeLiteral Scan.

(** X1: a final newline after [DD:DD:DD] is ignored: the text is still read
    as hours, minutes and seconds. *)
Theorem parse_time_ignores_final_newline (s : string) :
  clock_shaped s = true ->
  parse_time (s ++ String "010" "") = parse_time s.
Proof.
  intros H. now rewrite parse_time_clock_then_newline, parse_time_clock_shaped.
Qed.

Lemma parse_time_ignores_final_newline_witness :
  parse_time ("01:02:03" ++ String "010" "") = parse_time "01:02:03".
Proof. apply (parse_time_ignores_final_newline "01:02:03"). reflexivity. Defined.

(** X2: the fields of [DD:DD:DD] are not checked against 59: every such
    text is accepted, with a value between 0 and 99:99:99 = 362439. *)
Theorem parse_time_clock_range (s : string) :
  clock_shaped s = true ->
  exists v, parse_time s = Ok v /\ 0 <= v <= 362439.
Proof.
  intros H. exists (clock_seconds s). split; [now apply parse_time_clock_shaped |].
  destruct (clock_shaped_inv s H)
    as (h1 & h2 & m1 & m2 & s1 & s2 & -> & H1 & H2 & H3 & H4 & H5 & H6).
  cbn [clock_seconds]. unfold two_digits.
  pose proof (digit_value_range _ H1). pose proof (digit_value_range _ H2).
  pose proof (digit_value_range _ H3). pose proof (digit_value_range _ H4).
  pose proof (digit_value_range _ H5). pose proof (digit_value_range _ H6).
  lia.
Qed.

Lemma parse_time_clock_range_witness :
  exists v, parse_time "00:99:99" = Ok v /\ 0 <= v <= 362439.
Proof. apply (parse_time_clock_range "00:99:99"). reflexivity. Defined.




(** X5: within one run, two different indices never give the same file
    name. *)
Theorem out_file_name_injective (stem : string) (i j max_count : Z) :
  out_file_name stem i max_count = out_file_name stem j max_count -> i = j.
Proof.
  unfold out_file_name. intros H.
  apply append_inv_head in H. apply append_inv_head in H.
  apply append_inv_tail in H.
  pose proof (int_zfill_str i (len (str max_count))) as Hi.
  pose proof (int_zfill_str j (len (str max_count))) as Hj.
  rewrite H in Hi. congruence.
Qed.

Lemma out_file_name_injective_witness : 7 = 7.
Proof. apply (out_file_name_injective "video" 7 7 12). reflexivity. Defined.

End LiteralExtras.

(** ** More on the chapter lookup *)

Section ChapterExtras.

Import ChapterSpec RunSpec.

Lemma getitem_nonneg {A : Type} (l : list A) (i : Z) :
  0 <= i < Z.of_nat (List.length l) ->
  exists a, nth_error l (Z.to_nat i) = Some a /\ Py.getitem l i = Ok a.
Proof.
  intros H. unfold Py.getitem.
  destruct (Z.ltb_spec i 0) as [? | _]; [lia |].
  destruct (Z.leb_spec 0 i) as [_ | ?]; [| lia].
  destruct (Z.ltb_spec i (Z.of_nat (List.length l))) as [_ | ?]; [| lia].
  cbn [andb].
  destruct (nth_error l (Z.to_nat i)) as [a |] eqn:E; [eauto |].
  apply nth_error_None in E. lia.
Qed.

Lemma getitem_negative {A : Type} (l : list A) (i : Z) :
  i < 0 ->
  (i < - Z.of_nat (List.length l) -> Py.getitem l i = Raise IndexError)
  /\ (- Z.of_nat (List.length l) <= i ->
      exists a, nth_error l (Z.to_nat (Z.of_nat (List.length l) + i)) = Some a
                /\ Py.getitem l i = Ok a).
Proof.
  intros Hneg. unfold Py.getitem.
  destruct (Z.ltb_spec i 0) as [_ | ?]; [| lia].
  split; intros H.
  - destruct (Z.leb_spec 0 (i + Z.of_nat (List.length l))) as [? | _]; [lia |].
    reflexivity.
  - destruct (Z.leb_spec 0 (i + Z.of_nat (List.length l))) as [_ | ?]; [| lia].
    destruct (Z.ltb_spec (i + Z.of_nat (List.length l)) (Z.of_nat (List.length l)))
      as [_ | ?]; [| lia].
    cbn [andb]. rewrite (Z.add_comm (Z.of_nat (List.length l)) i).
    destruct (nth_error l (Z.to_nat (i + Z.of_nat (List.length l)))) as [a |] eqn:E;
      [eauto |].
    apply nth_error_None in E. lia.
Qed.

(** X6: an ordinal between 1 and the number of chapters returns the field
    of that chapter, counted from 1, whatever title is also given. *)
Theorem chapter_number_in_range (chapters : list Chapter.t) (chapter_num : Z)
    (chapter_name : option string) (k : key) :
  1 <= chapter_num <= Z.of_nat (List.length chapters) ->
  exists chapter,
    nth_error chapters (Z.to_nat (chapter_num - 1)) = Some chapter
    /\ get_chapter_time chapters (Some chapter_num) chapter_name k
       = Ok (Some (chapter_field chapter k)).
Proof.
  intros H. unfold get_chapter_time. cbn [truthy_int].
  destruct (Z.eqb_spec chapter_num 0) as [? | _]; [lia |]. cbn [negb].
  destruct (getitem_nonneg chapters (chapter_num - 1) ltac:(lia)) as [c [Hn Hg]].
  exists c. split; [exact Hn |]. now rewrite Hg.
Qed.

Lemma chapter_number_in_range_witness :
  exists chapter,
    nth_error Samples.two_chapters (Z.to_nat (2 - 1)) = Some chapter
    /\ get_chapter_time Samples.two_chapters (Some 2) (Some "Intro") end_time_key
       = Ok (Some (chapter_field chapter end_time_key)).
Proof.
  apply (chapter_number_in_range Samples.two_chapters 2 (Some "Intro") end_time_key).
  cbn. lia.
Defined.

(** X7: a negative ordinal is not rejected: since 1 is subtracted before
    indexing, ordinal [-1] selects the chapter before the last one, and in
    general ordinal [n < 0] the chapter at position [len + n - 1] (from 0);
    it fails with an index error only when [n - 1 < - len]. *)
Theorem chapter_number_negative (chapters : list Chapter.t) (chapter_num : Z)
    (chapter_name : option string) (k : key) :
  chapter_num < 0 ->
  (chapter_num - 1 < - Z.of_nat (List.length chapters) ->
   get_chapter_time chapters (Some chapter_num) chapter_name k = Raise IndexError)
  /\ (- Z.of_nat (List.length chapters) <= chapter_num - 1 ->
      exists chapter,
        nth_error chapters
          (Z.to_nat (Z.of_nat (List.length chapters) + (chapter_num - 1))) = Some chapter
        /\ get_chapter_time chapters (Some chapter_num) chapter_name k
           = Ok (Some (chapter_field chapter k))).
Proof.
  intros H. unfold get_chapter_time. cbn [truthy_int].
  destruct (Z.eqb_spec chapter_num 0) as [? | _]; [lia |]. cbn [negb].
  destruct (getitem_negative chapters (chapter_num - 1) ltac:(lia)) as [Hout Hin].
  split; intros Hb.
  - now rewrite (Hout Hb).
  - destruct (Hin Hb) as [c [Hn Hg]]. exists c. split; [exact Hn |]. now rewrite Hg.
Qed.

Lemma chapter_number_negative_witness :
  get_chapter_time Samples.two_chapters (Some (-1)) None start_time_key
  = Ok (Some (Fin 0))
  /\ get_chapter_time Samples.two_chapters (Some (-2)) None start_time_key
     = Raise IndexError.
Proof.
  split.
  - destruct (proj2 (chapter_number_negative Samples.two_chapters (-1) None
                       start_time_key ltac:(lia)) ltac:(cbn; lia)) as [c [Hn Hg]].
    cbn in Hn. injection Hn as <-. exact Hg.
  - apply (proj1 (chapter_number_negative Samples.two_chapters (-2) None
                    start_time_key ltac:(lia))). cbn. lia.
Defined.

Lemma scan_chapters_skips (pre rest : list Chapter.t) (title : string) (k : key) :
  Forall (other_title title) pre ->
  scan_chapters (pre ++ rest) title k = scan_chapters rest title k.
Proof.
  induction 1 as [| c pre [t [Ht Hne]] _ IH]; [reflexivity |].
  cbn [app scan_chapters]. unfold chapter_title. rewrite Ht. cbn [bind].
  destruct (String.eqb_spec t title) as [? | _]; [contradiction | exact IH].
Qed.

(** X8: a title scan is decided by the first chapter that either carries
    the title or carries no title at all: the former is returned even when
    later chapters lack a title, the latter stops the lookup with a key
    error even when a later chapter matches. *)
Theorem title_scan_first_decides (pre rest : list Chapter.t) (c : Chapter.t)
    (title : string) (k : key) :
  title <> "" -> Forall (other_title title) pre ->
  (has_title title c = true ->
   get_chapter_time (pre ++ c :: rest) None (Some title) k
   = Ok (Some (chapter_field c k)))
  /\ (~ titled c ->
      get_chapter_time (pre ++ c :: rest) None (Some title) k = Raise KeyError).
Proof.
  intros Hne Hpre. unfold get_chapter_time. cbn [truthy_int truthy_str].
  destruct (String.eqb_spec title "") as [? | _]; [contradiction |]. cbn [negb].
  rewrite (scan_chapters_skips pre (c :: rest) title k Hpre).
  cbn [scan_chapters]. unfold chapter_title, has_title, titled.
  destruct (Chapter.tags c) as [[t |] |]; cbn [bind]; split; intros H;
    try discriminate; try reflexivity.
  - now rewrite H.
  - exfalso. apply H. now exists t.
Qed.

Lemma title_scan_first_decides_witness :
  get_chapter_time ([Samples.intro] ++ Samples.main :: [Samples.untitled]) None
    (Some "Main") start_time_key = Ok (Some (Fin 100))
  /\ get_chapter_time ([Samples.intro] ++ Samples.untitled :: [Samples.main]) None
       (Some "Main") start_time_key = Raise KeyError.
Proof.
  assert (Hpre : Forall (other_title "Main") [Samples.intro]).
  { repeat constructor. exists "Intro". split; [reflexivity | discriminate]. }
  split.
  - apply (proj1 (title_scan_first_decides [Samples.intro] [Samples.untitled]
                    Samples.main "Main" start_time_key ltac:(discriminate) Hpre)).
    reflexivity.
  - apply (proj2 (title_scan_first_decides [Samples.intro] [Samples.main]
                    Samples.untitled "Main" start_time_key ltac:(discriminate) Hpre)).
    intros [t Ht]. discriminate.
Defined.

(** X9: a start chapter title that no chapter carries is not an error: the
    start falls back to the literal start time. *)
Theorem start_title_not_found_falls_back (chapters : list Chapter.t) (args : Args.t)
    (title : string) :
  truthy_int (Args.start_chapter_number args) = false ->
  Args.start_chapter_name args = Some title -> title <> "" ->
  Forall (other_title title) chapters ->
  start_time_of chapters args
  = (z <- parse_time (Args.start_time args) ;; Ok (PInt z)).
Proof.
  intros Hnum Hname Hne Hall. unfold start_time_of, get_chapter_time.
  rewrite Hnum, Hname. cbn [truthy_str].
  destruct (String.eqb_spec title "") as [? | _]; [contradiction |]. cbn [negb].
  rewrite <- (app_nil_r chapters), (scan_chapters_skips chapters [] title _ Hall).
  reflexivity.
Qed.

Lemma start_title_not_found_falls_back_witness :
  start_time_of Samples.two_chapters
    (Samples.with_start_chapter None (Some "Credits") (Samples.default_args "video.mkv"))
  = (z <- parse_time "0" ;; Ok (PInt z)).
Proof.
  apply (start_title_not_found_falls_back Samples.two_chapters
           (Samples.with_start_chapter None (Some "Credits")
              (Samples.default_args "video.mkv")) "Credits");
    try reflexivity; try discriminate.
  repeat constructor; eexists; (split; [reflexivity | discriminate]).
Defined.

End ChapterExtras.

(** ** More on whole runs *)

Section RunExtras.

Import Bounds ChapterSpec RunSpec.

Variable stem : string -> string.
Variable parent : string -> string.
Variable joinpath : string -> string -> string.
Variable probe : string -> result probe_data.
Variable mkdir_ok : string -> bool.
Variable run_ok : string -> Z -> string -> bool.

Local Notation "'try_block'" := (body stem parent joinpath probe mkdir_ok run_ok).
Local Notation "'run'" :=
  (generate_screenshots stem parent joinpath probe mkdir_ok run_ok).
Local Notation "'out_dir'" := (out_path_of parent joinpath).
Local Notation "'resolved'" := (reaches_loop parent joinpath probe mkdir_ok).

Lemma for_each_ext {A : Type} (f g : A -> IO unit) (l : list A) :
  (forall a, f a = g a) -> for_each l f = for_each l g.
Proof. intros H. induction l as [| a l IH]; [reflexivity |]. cbn [for_each]. now rewrite H, IH. Qed.

(** The loop of the driver is the loop over the steps. *)
Lemma driver_loop (simulate : bool) (in_file out_path : string) (max_count : Z)
    (entries : list (Z * Z)) :
  for_each entries (fun '(count, timestamp) =>
    emit (progress count timestamp) ;;;
    if simulate then ret tt
    else
      let out_file := out_file_name (stem in_file) count max_count in
      let out_fullpath := joinpath out_path out_file in
      emit (ffmpeg_run in_file timestamp out_fullpath) ;;;
      if run_ok in_file timestamp out_fullpath then ret tt
      else lift (Raise ffmpeg_Error))
  = for_each entries
      (if simulate then simulate_step
       else extract_step stem joinpath run_ok in_file out_path max_count).
Proof.
  apply for_each_ext. intros [c t]. unfold simulate_step, extract_step.
  destruct simulate; [reflexivity |]. cbn [fst snd].
  destruct (run_ok in_file t (joinpath out_path (out_file_name (stem in_file) c max_count)));
    reflexivity.
Qed.

Lemma extraction_loop_ok (in_file out_path : string) (max_count : Z)
    (entries : list (Z * Z)) :
  all_run_ok stem joinpath run_ok in_file out_path max_count entries ->
  for_each entries (extract_step stem joinpath run_ok in_file out_path max_count)
  = (extraction_events stem joinpath in_file out_path max_count entries, value_of tt).
Proof.
  induction 1 as [| entry entries Hok _ IH]; [reflexivity |].
  cbn [for_each]. rewrite IH. unfold extract_step at 1. rewrite Hok. reflexivity.
Qed.

Lemma extraction_loop_fails (in_file out_path : string) (max_count : Z)
    (before after : list (Z * Z)) (entry : Z * Z) :
  all_run_ok stem joinpath run_ok in_file out_path max_count before ->
  run_ok in_file (snd entry)
    (joinpath out_path (out_file_name (stem in_file) (fst entry) max_count)) = false ->
  for_each (before ++ entry :: after)
    (extract_step stem joinpath run_ok in_file out_path max_count)
  = (extraction_events stem joinpath in_file out_path max_count (before ++ [entry]),
     raised ffmpeg_Error).
Proof.
  intros Hbefore Hfail.
  induction Hbefore as [| e before Hok _ IH].
  - cbn [app for_each]. unfold extract_step at 1. rewrite Hfail. reflexivity.
  - cbn [app for_each]. rewrite IH. unfold extract_step at 1. rewrite Hok. reflexivity.
Qed.

Lemma simulated_loop_trace (entries : list (Z * Z)) :
  for_each entries simulate_step
  = (List.map (fun entry => progress (fst entry) (snd entry)) entries, value_of tt).
Proof.
  induction entries as [| entry entries IH]; [reflexivity |].
  cbn [for_each]. rewrite IH. reflexivity.
Qed.

(** A run that reaches the loop: the probe, the directory, the summary when
    asked for, then the loop. *)
Lemma body_reaches_loop (args : Args.t) (p : probe_data) (start_time end_time : number)
    (max_count : Z) (entries : list (Z * Z)) :
  resolved args p start_time end_time max_count entries ->
  try_block args
  = ([probed (Args.in_file args); mkdir (out_dir args)]
     ++ summary_lines args (out_dir args) start_time end_time max_count
     ++ fst (for_each entries
               (if Args.simulate args then simulate_step
                else extract_step stem joinpath run_ok (Args.in_file args)
                       (out_dir args) max_count)),
     snd (for_each entries
            (if Args.simulate args then simulate_step
             else extract_step stem joinpath run_ok (Args.in_file args)
                    (out_dir args) max_count))).
Proof.
  intros (Hp & Hc & Hm & Hs & He & HT & Hsched).
  rewrite <- (driver_loop (Args.simulate args) (Args.in_file args) (out_dir args)
                max_count entries).
  unfold body. rewrite Hp, Hc.
  cbn [emit lift when ret and_then app fst snd]. unfold ensure_directory. rewrite Hm.
  cbn [emit and_then app fst snd]. rewrite Hs. cbn [lift and_then app fst snd].
  rewrite He. cbn [lift some_or_type_error and_then app fst snd].
  rewrite HT. cbn [lift and_then app fst snd]. rewrite Hsched.
  unfold summary_lines.
  destruct (Args.verbose args || Args.simulate args);
    cbn [when emit lift ret and_then app fst snd]; reflexivity.
Qed.


(** X10: when every extraction succeeds, a run that is not simulated calls
    the extractor once for every scheduled entry, in order, at the entry's
    timestamp and on the entry's file, and then returns normally. *)
Theorem run_extracts_every_entry (args : Args.t) (p : probe_data)
    (start_time end_time : number) (max_count : Z) (entries : list (Z * Z)) :
  resolved args p start_time end_time max_count entries ->
  Args.simulate args = false ->
  all_run_ok stem joinpath run_ok (Args.in_file args) (out_dir args) max_count entries ->
  run args
  = ([probed (Args.in_file args); mkdir (out_dir args)]
     ++ summary_lines args (out_dir args) start_time end_time max_count
     ++ extraction_events stem joinpath (Args.in_file args) (out_dir args)
          max_count entries,
     returned).
Proof.
  intros Hres Hsim Hok. unfold generate_screenshots.
  rewrite (body_reaches_loop _ _ _ _ _ _ Hres), Hsim, extraction_loop_ok by exact Hok.
  reflexivity.
Qed.

(** X11: a failed extraction ends the run: the entries before it were
    extracted, none after it is tried, the error is reported and the exit
    code is 1. *)
Theorem run_stops_at_failed_extraction (args : Args.t) (p : probe_data)
    (start_time end_time : number) (max_count : Z)
    (before after : list (Z * Z)) (entry : Z * Z) :
  resolved args p start_time end_time max_count (before ++ entry :: after) ->
  Args.simulate args = false ->
  all_run_ok stem joinpath run_ok (Args.in_file args) (out_dir args) max_count before ->
  run_ok (Args.in_file args) (snd entry)
    (joinpath (out_dir args)
       (out_file_name (stem (Args.in_file args)) (fst entry) max_count)) = false ->
  run args
  = (([probed (Args.in_file args); mkdir (out_dir args)]
      ++ summary_lines args (out_dir args) start_time end_time max_count
      ++ extraction_events stem joinpath (Args.in_file args) (out_dir args)
           max_count (before ++ [entry]))
     ++ [error_printed ffmpeg_Error],
     exited 1).
Proof.
  intros Hres Hsim Hok Hfail. unfold generate_screenshots.
  rewrite (body_reaches_loop _ _ _ _ _ _ Hres), Hsim.
  rewrite (extraction_loop_fails _ _ _ before after entry Hok Hfail).
  reflexivity.
Qed.

Lemma listing_loop (l : list (Z * Chapter.t)) :
  Forall (fun entry => has_tags (snd entry)) l ->
  for_each l (fun '(idx, chapter) =>
    match Chapter.tags chapter with
    | Some tags =>
        emit (printed (chapter_line idx (Chapter.start_time chapter)
                         (match tags with Some title => title | None => "" end)))
    | None => lift (Raise KeyError)
    end)
  = (List.map listing_line l, value_of tt).
Proof.
  induction 1 as [| [idx c] l Hc _ IH]; [reflexivity |].
  cbn [for_each]. rewrite IH. cbn [fst snd] in Hc. unfold has_tags in Hc.
  destruct (Chapter.tags c) as [[t |] |] eqn:E; [| | contradiction];
    cbn [List.map emit and_then app fst snd]; unfold listing_line;
    cbn [fst snd]; rewrite E; reflexivity.
Qed.

Lemma listing_loop_stops (before after : list (Z * Chapter.t)) (entry : Z * Chapter.t) :
  Forall (fun entry => has_tags (snd entry)) before ->
  Chapter.tags (snd entry) = None ->
  for_each (before ++ entry :: after) (fun '(idx, chapter) =>
    match Chapter.tags chapter with
    | Some tags =>
        emit (printed (chapter_line idx (Chapter.start_time chapter)
                         (match tags with Some title => title | None => "" end)))
    | None => lift (Raise KeyError)
    end)
  = (List.map listing_line before, raised KeyError).
Proof.
  intros Hbefore Hnone. induction Hbefore as [| [idx c] l Hc _ IH].
  - destruct entry as [idx c]. cbn [app for_each fst snd] in *. now rewrite Hnone.
  - cbn [app for_each]. rewrite IH. cbn [fst snd] in Hc. unfold has_tags in Hc.
    destruct (Chapter.tags c) as [[t |] |] eqn:E; [| | contradiction];
      cbn [List.map emit and_then app fst snd]; unfold listing_line;
      cbn [fst snd]; rewrite E; reflexivity.
Qed.

Lemma enumerate_snd {A : Type} (P : A -> Prop) (l : list A) (start : Z) :
  Forall P l -> Forall (fun entry => P (snd entry)) (Py.enumerate l start).
Proof.
  intros H. revert start. induction H; intros start; cbn [Py.enumerate]; constructor; auto.
Qed.

Lemma enumerate_app {A : Type} (l1 l2 : list A) (start : Z) :
  Py.enumerate (l1 ++ l2) start
  = Py.enumerate l1 start ++ Py.enumerate l2 (start + Z.of_nat (List.length l1)).
Proof.
  revert start. induction l1 as [| a l1 IH]; intros start.
  - cbn. now rewrite Z.add_0_r.
  - cbn [app Py.enumerate List.length]. rewrite IH. do 3 f_equal. lia.
Qed.

(** X12: a chapter listing prints one line per chapter, numbered from 1,
    with an empty title where the tags carry none, and exits with 0; it
    creates no directory and extracts nothing, whatever the other options
    are. *)
Theorem listing_prints_every_chapter (args : Args.t) (p : probe_data) :
  probe (Args.in_file args) = Ok p -> Args.print_chapters args = true ->
  Forall has_tags (chapters p) ->
  run args
  = (probed (Args.in_file args) :: List.map listing_line (Py.enumerate (chapters p) 1),
     exited 0).
Proof.
  intros Hp Hc Htags. unfold generate_screenshots, body. rewrite Hp, Hc.
  cbn [emit lift when and_then app fst snd]. unfold print_chapter_lines.
  rewrite (listing_loop _ (enumerate_snd has_tags _ 1 Htags)).
  cbn [and_then app fst snd]. now rewrite !app_nil_r.
Qed.

(** X13: a chapter without tags stops the listing: the lines of the
    chapters before it are printed, then the key error is reported and the
    exit code is 1. *)
Theorem listing_stops_at_missing_tags (args : Args.t) (p : probe_data)
    (before after : list Chapter.t) (c : Chapter.t) :
  probe (Args.in_file args) = Ok p -> Args.print_chapters args = true ->
  chapters p = before ++ c :: after ->
  Forall has_tags before -> Chapter.tags c = None ->
  run args
  = ((probed (Args.in_file args) :: List.map listing_line (Py.enumerate before 1))
     ++ [error_printed KeyError],
     exited 1).
Proof.
  intros Hp Hc Hch Htags Hnone. unfold generate_screenshots, body. rewrite Hp, Hc.
  cbn [emit lift when and_then app fst snd]. unfold print_chapter_lines.
  rewrite Hch, enumerate_app. cbn [Py.enumerate].
  rewrite (listing_loop_stops _ _ (1 + Z.of_nat (List.length before), c)
             (enumerate_snd has_tags _ 1 Htags) Hnone).
  reflexivity.
Qed.


(** Properties of every event of a computation pass to its sequel. *)
Lemma and_then_Forall {A B : Type} (P : event -> Prop) (m : IO A) (k : A -> IO B) :
  Forall P (fst m) -> (forall a, Forall P (fst (k a))) -> Forall P (fst (and_then m k)).
Proof.
  intros Hm Hk. destruct m as [t [a | e | c]]; cbn [and_then fst] in *; auto.
  apply Forall_app. split; auto.
Qed.

Lemma and_then_exit {A B : Type} (m : IO A) (k : A -> IO B) (c : Z) :
  snd (and_then m k) = sys_exit c ->
  snd m = sys_exit c \/ exists a, snd (k a) = sys_exit c.
Proof.
  destruct m as [t [a | e | c']]; cbn [and_then snd]; intros H;
    [right; eauto | discriminate | injection H as ->; now left].
Qed.

Lemma for_each_Forall {A : Type} (P : event -> Prop) (f : A -> IO unit) (l : list A) :
  (forall a, Forall P (fst (f a))) -> Forall P (fst (for_each l f)).
Proof.
  intros H. induction l as [| a l IH]; [constructor |].
  cbn [for_each]. apply and_then_Forall; auto.
Qed.

Lemma for_each_exit {A : Type} (f : A -> IO unit) (l : list A) (c : Z) :
  snd (for_each l f) = sys_exit c -> exists a, snd (f a) = sys_exit c.
Proof.
  induction l as [| a l IH]; cbn [for_each]; [discriminate |].
  intros H. apply and_then_exit in H. destruct H as [H | [_ H]]; eauto.
Qed.

Lemma lift_has_no_event {A : Type} (P : event -> Prop) (r : result A) :
  Forall P (fst (lift r)).
Proof. destruct r; constructor. Qed.

Lemma lift_does_not_exit {A : Type} (r : result A) (c : Z) : snd (lift r) <> sys_exit c.
Proof. destruct r; discriminate. Qed.

Lemma step_events (P : event -> Prop) (simulate : bool) (in_file out_path : string)
    (max_count : Z) (entry : Z * Z) :
  (forall count timestamp, P (progress count timestamp)) ->
  (forall f ss o, P (ffmpeg_run f ss o)) ->
  Forall P (fst ((if simulate then simulate_step
                  else extract_step stem joinpath run_ok in_file out_path max_count)
                   entry)).
Proof. intros H1 H2. destruct simulate; repeat constructor; auto. Qed.

Lemma step_does_not_exit (simulate : bool) (in_file out_path : string)
    (max_count : Z) (entry : Z * Z) (c : Z) :
  snd ((if simulate then simulate_step
        else extract_step stem joinpath run_ok in_file out_path max_count) entry)
  <> sys_exit c.
Proof.
  destruct simulate; unfold simulate_step, extract_step; cbn [snd];
    [discriminate |].
  destruct (run_ok _ _ _); discriminate.
Qed.

Lemma listing_events (P : event -> Prop) (chs : list Chapter.t) :
  (forall m, P (printed m)) -> Forall P (fst (print_chapter_lines chs)).
Proof.
  intros H. unfold print_chapter_lines. apply for_each_Forall. intros [idx c].
  destruct (Chapter.tags c); [repeat constructor; auto | constructor].
Qed.

(** What follows the creation of the directory, in any run. *)
Lemma after_mkdir_events (P : event -> Prop) (args : Args.t) (p : probe_data) :
  (forall m, P (printed m)) ->
  (forall count timestamp, P (progress count timestamp)) ->
  (forall f ss o, P (ffmpeg_run f ss o)) ->
  Args.print_chapters args = false -> probe (Args.in_file args) = Ok p ->
  mkdir_ok (out_dir args) = true ->
  exists rest,
    fst (try_block args) = probed (Args.in_file args) :: mkdir (out_dir args) :: rest
    /\ Forall P rest.
Proof.
  intros Hprint Hprog Hrun Hc Hp Hm. unfold body. rewrite Hp, Hc.
  cbn [emit lift when ret and_then app fst snd]. unfold ensure_directory. rewrite Hm.
  cbn [emit and_then app fst snd]. eexists. split; [reflexivity |].
  repeat (apply and_then_Forall; [| intros ?]);
    try apply lift_has_no_event.
  - destruct (Args.verbose args || Args.simulate args); cbn [when].
    + repeat (apply and_then_Forall; [| intros ?]); repeat constructor; auto.
    + constructor.
  - apply for_each_Forall. intros [count timestamp].
    destruct (Args.simulate args); [repeat constructor; auto |].
    destruct (run_ok _ _ _); repeat constructor; auto.
Qed.

(** X14: the output directory is created at most once, and only after a
    successful probe of a run that is not a chapter listing: a failed probe
    or a listing leaves no directory behind. *)
Theorem mkdir_only_after_probe (args : Args.t) (before after : list event) (d : string) :
  fst (run args) = before ++ mkdir d :: after ->
  d = out_dir args
  /\ (exists p, probe (Args.in_file args) = Ok p)
  /\ Args.print_chapters args = false
  /\ Forall (fun ev => is_mkdir ev = false) (before ++ after).
Proof.
  intros H.
  assert (Hrun : exists tail, fst (run args) = fst (try_block args) ++ tail
                              /\ Forall (fun ev => is_mkdir ev = false) tail).
  { unfold generate_screenshots. destruct (try_block args) as [t [[] | e | c]];
      cbn [fst]; [exists [] | exists [error_printed e] | exists []];
      rewrite ?app_nil_r; repeat constructor. }
  destruct Hrun as [tail [Hrun Htail]]. rewrite Hrun in H.
  assert (Hquiet : forall t, Forall (fun ev => is_mkdir ev = false) t ->
                             t ++ tail <> before ++ mkdir d :: after).
  { intros t Ht E.
    assert (Hall : Forall (fun ev => is_mkdir ev = false) (before ++ mkdir d :: after)).
    { rewrite <- E. apply Forall_app. now split. }
    apply Forall_app in Hall. destruct Hall as [_ Hall]. inversion Hall. discriminate. }
  destruct (probe (Args.in_file args)) as [p | e] eqn:Hp.
  - destruct (Args.print_chapters args) eqn:Hc.
    + exfalso. apply (Hquiet (fst (try_block args))); [| exact H].
      pose proof (listing_events (fun ev => is_mkdir ev = false) (chapters p)
                    (fun m => eq_refl)) as Hl.
      unfold body. rewrite Hp, Hc. cbn [emit lift when and_then app fst snd].
      destruct (print_chapter_lines (chapters p)) as [t [[] | x | c]];
        cbn [and_then fst snd app] in Hl |- *; rewrite ?app_nil_r;
        constructor; auto.
    + destruct (mkdir_ok (out_dir args)) eqn:Hm.
      * destruct (after_mkdir_events (fun ev => is_mkdir ev = false) args p)
          as [rest [Hb Hrest]]; auto.
        rewrite Hb in H. cbn [app] in H.
        destruct before as [| x before]; [discriminate H |].
        injection H as <- H.
        destruct before as [| y before].
        -- injection H as <- <-. repeat split; eauto.
           constructor; [reflexivity |]. apply Forall_app. now split.
        -- injection H as <- H. exfalso.
           assert (Hall : Forall (fun ev => is_mkdir ev = false)
                            (before ++ mkdir d :: after)).
           { rewrite <- H. apply Forall_app. now split. }
           apply Forall_app in Hall. destruct Hall as [_ Hall].
           inversion Hall. discriminate.
      * exfalso. apply (Hquiet (fst (try_block args))); [| exact H].
        unfold body. rewrite Hp, Hc. cbn [emit lift when ret and_then app fst snd].
        unfold ensure_directory. rewrite Hm. repeat constructor.
  - exfalso. apply (Hquiet (fst (try_block args))); [| exact H].
    unfold body. rewrite Hp. repeat constructor.
Qed.


Lemma body_prints_no_error (args : Args.t) :
  Forall (fun ev => is_error ev = false) (fst (try_block args)).
Proof.
  unfold body.
  repeat (apply and_then_Forall; [| intros ?]); try apply lift_has_no_event;
    try (repeat constructor; fail).
  - destruct (Args.print_chapters args); cbn [when]; [| constructor].
    apply and_then_Forall; [| intros ?; constructor].
    now apply listing_events.
  - unfold ensure_directory. destruct (mkdir_ok _); repeat constructor.
  - destruct (Args.verbose args || Args.simulate args); cbn [when]; [| constructor].
    repeat (apply and_then_Forall; [| intros ?]); repeat constructor.
  - apply for_each_Forall. intros [count timestamp].
    repeat (apply and_then_Forall; [| intros ?]); try (repeat constructor; fail).
    destruct (Args.simulate args); [constructor |].
    repeat (apply and_then_Forall; [| intros ?]); try (repeat constructor; fail).
    destruct (run_ok _ _ _); constructor.
Qed.

Lemma body_exits_only_from_listing (args : Args.t) (c : Z) :
  snd (try_block args) = sys_exit c -> c = 0 /\ Args.print_chapters args = true.
Proof.
  unfold body. intros H.
  repeat match type of H with
         | snd (and_then _ _) = sys_exit _ =>
             apply and_then_exit in H; destruct H as [H | [? H]]
         end;
    try (exfalso; revert H; apply lift_does_not_exit);
    try discriminate H.
  - destruct (Args.print_chapters args); cbn [when] in H; [| discriminate H].
    apply and_then_exit in H. destruct H as [H | [_ H]].
    + unfold print_chapter_lines in H. apply for_each_exit in H.
      destruct H as [[idx ch] H]. destruct (Chapter.tags ch); discriminate H.
    + injection H as <-. split; reflexivity.
  - unfold ensure_directory in H. destruct (mkdir_ok _); discriminate H.
  - destruct (Args.verbose args || Args.simulate args); cbn [when] in H;
      [| discriminate H].
    repeat match type of H with
           | snd (and_then _ _) = sys_exit _ =>
               apply and_then_exit in H; destruct H as [H | [? H]]
           end; discriminate H.
  - apply for_each_exit in H. destruct H as [[count timestamp] H].
    apply and_then_exit in H. destruct H as [H | [_ H]]; [discriminate H |].
    destruct (Args.simulate args); [discriminate H |].
    apply and_then_exit in H. destruct H as [H | [_ H]]; [discriminate H |].
    destruct (run_ok _ _ _); discriminate H.
Qed.

(** X15: a run ends in one of three ways: it returns normally; it exits
    with 0, which only a chapter listing does; or it exits with 1, and then
    the report of the exception is the last thing it did.  No error is
    reported anywhere else. *)
Theorem run_endings (args : Args.t) :
  match snd (run args) with
  | returned => Forall (fun ev => is_error ev = false) (fst (run args))
  | exited code =>
      (code = 0 /\ Args.print_chapters args = true
       /\ Forall (fun ev => is_error ev = false) (fst (run args)))
      \/ (code = 1
          /\ exists t e, fst (run args) = t ++ [error_printed e]
                         /\ Forall (fun ev => is_error ev = false) t)
  end.
Proof.
  pose proof (body_prints_no_error args) as Hq.
  pose proof (body_exits_only_from_listing args) as Hx.
  unfold generate_screenshots.
  destruct (try_block args) as [t [[] | e | c]]; cbn [fst snd] in *.
  - exact Hq.
  - right. split; [reflexivity |]. now exists t, e.
  - destruct (Hx c eq_refl) as [-> Hl]. left. auto.
Qed.

(** X16: an end chapter title that no chapter carries is an error, unlike
    for the start: the end time is then absent, the subtraction raises a
    type error, and the run exits with 1, after the output directory has
    been created. *)
Theorem end_title_not_found_fails (args : Args.t) (p : probe_data)
    (start_time : number) (title : string) :
  probe (Args.in_file args) = Ok p -> Args.print_chapters args = false ->
  mkdir_ok (out_dir args) = true ->
  start_time_of (chapters p) args = Ok start_time ->
  truthy_int (Args.end_chapter_number args) = false ->
  Args.end_chapter_name args = Some title -> title <> "" ->
  Forall (other_title title) (chapters p) ->
  run args
  = ([probed (Args.in_file args); mkdir (out_dir args); error_printed TypeError],
     exited 1).
Proof.
  intros Hp Hc Hm Hs Hnum Hname Hne Hall.
  assert (He : end_time_of (chapters p) (duration p) args = Ok None).
  { unfold end_time_of, get_chapter_time. rewrite Hnum, Hname. cbn [truthy_str].
    destruct (String.eqb_spec title "") as [? | _]; [contradiction |].
    cbn [negb orb].
    rewrite <- (app_nil_r (chapters p)),
      (scan_chapters_skips (chapters p) [] title _ Hall).
    reflexivity. }
  unfold generate_screenshots, body. rewrite Hp, Hc.
  cbn [emit lift when ret and_then app fst snd]. unfold ensure_directory. rewrite Hm.
  cbn [emit and_then app fst snd]. rewrite Hs. cbn [lift and_then app fst snd].
  rewrite He. reflexivity.
Qed.

Lemma truediv_by_zero (time_range : number) (t : Q) :
  value time_range = Some t ->
  PyNum.truediv time_range (PInt 0) = Raise ZeroDivisionError.
Proof.
  destruct time_range as [z | [q | b |]]; cbn [value]; intros H; try discriminate;
    reflexivity.
Qed.

(** X17: an interval of 0 is not rejected up front: for a range of modest
    size the division for the advertised count raises, and the run exits
    with 1, after the output directory has been created and before any
    extraction. *)
Theorem zero_interval_fails (args : Args.t) (p : probe_data)
    (start_time end_time : number) (vs ve : Q) :
  probe (Args.in_file args) = Ok p -> Args.print_chapters args = false ->
  mkdir_ok (out_dir args) = true ->
  start_time_of (chapters p) args = Ok start_time ->
  end_time_of (chapters p) (duration p) args = Ok (Some end_time) ->
  value start_time = Some vs -> value end_time = Some ve ->
  modest vs -> modest ve -> Args.interval args = 0 ->
  run args
  = ([probed (Args.in_file args); mkdir (out_dir args);
      error_printed ZeroDivisionError],
     exited 1).
Proof.
  intros Hp Hc Hm Hs He Hvs Hve Ms Me Hi.
  destruct (time_range_spec _ _ vs ve Hvs Hve Ms Me) as (tr & t & Hsub & Hv & _).
  assert (HT : max_count_of start_time end_time (Args.interval args)
               = Raise ZeroDivisionError).
  { unfold max_count_of. rewrite Hsub, Hi. cbn [bind].
    now rewrite (truediv_by_zero tr t Hv). }
  unfold generate_screenshots, body. rewrite Hp, Hc.
  cbn [emit lift when ret and_then app fst snd]. unfold ensure_directory. rewrite Hm.
  cbn [emit and_then app fst snd]. rewrite Hs. cbn [lift and_then app fst snd].
  rewrite He. cbn [lift some_or_type_error and_then app fst snd].
  rewrite HT. reflexivity.
Qed.

End RunExtras.

(** ** More on the schedule and the advertised count *)

Section ExactCounts.

Import Py Bounds.

Local Open Scope Q_scope.

(** A rational that is an integer below [2^53] rounds to itself. *)
Lemma round_pos_integer (q : Q) (z : Z) :
  q == inject_Z z -> (0 < z < 2 ^ 53)%Z -> round_pos q == inject_Z z.
Proof.
  intros Hq [Hlo Hhi].
  assert (Hz : 0 < inject_Z z) by (change 0 with (inject_Z 0); now rewrite <- Zlt_Qlt).
  assert (Hpos : 0 < q) by now rewrite Hq.
  destruct (ilog2_spec _ Hpos) as [Ha Hb].
  set (l := ilog2 q) in *.
  assert (Hl : (0 <= l < 53)%Z).
  { split.
    - assert (H : 2 ^ 0 < 2 ^ (l + 1)).
      { eapply Qle_lt_trans; [| exact Hb]. rewrite Hq. change (2 ^ 0) with (inject_Z 1).
        rewrite <- Zle_Qle. lia. }
      apply (Qpower_lt_compat_l_inv 2 0 (l + 1)) in H; [lia | reflexivity].
    - assert (H : 2 ^ l < 2 ^ 53).
      { eapply Qle_lt_trans; [exact Ha |]. rewrite Hq. rewrite <- pow2_of_Z by lia.
        now rewrite <- Zlt_Qlt. }
      apply (Qpower_lt_compat_l_inv 2 l 53) in H; [lia | reflexivity]. }
  rewrite round_pos_eq. unfold ulp_exp. fold l.
  rewrite Z.max_l by lia.
  set (k := (52 - l)%Z).
  assert (Ek : 2 ^ (l - 52) == / inject_Z (2 ^ k)).
  { rewrite pow2_of_Z by (subst k; lia). rewrite <- Qpower_opp.
    apply Qpower_comp; [reflexivity | subst k; lia]. }
  assert (Hk : 0 < inject_Z (2 ^ k)).
  { rewrite pow2_of_Z by (subst k; lia). apply pow2_pos. }
  assert (Em : q / 2 ^ (l - 52) == inject_Z (z * 2 ^ k)).
  { rewrite Ek, inject_Z_mult, Hq. field. lra. }
  rewrite (round_half_even_Z _ _ Em), Ek, inject_Z_mult. field. lra.
Qed.

Lemma round_Q_upper (q : Q) : 2 ^ (-1022) <= q -> round_Q q <= q + q * eps.
Proof.
  intros H. destruct (round_Q_normal q H) as [_ Hhi]. now rewrite div_53 in Hhi.
Qed.

(** On an integer range of modest size the advertised count is the exact
    quotient rounded up. *)
Lemma max_count_of_integers (s e i : Z) :
  modest (inject_Z s) -> modest (inject_Z e) -> (s < e)%Z -> (0 < i < 2 ^ 53)%Z ->
  max_count_of (PInt s) (PInt e) i = Ok (range_length s e i).
Proof.
  intros Ms Me Hlt Hi.
  destruct (max_count_spec (PInt s) (PInt e) _ _ i eq_refl eq_refl Ms Me Hi)
    as (T & HT & _ & _ & Hlow).
  rewrite HT. f_equal.
  set (D := (e - s)%Z).
  assert (HD : (0 < D <= 2 ^ 52)%Z).
  { destruct Ms as [Ms1 Ms2], Me as [Me1 Me2]. rewrite pow2_51 in Ms1, Ms2, Me1, Me2.
    change 2251799813685248 with (inject_Z 2251799813685248) in Ms1, Ms2, Me1, Me2.
    rewrite <- inject_Z_opp, <- Zle_Qle in Ms1, Me1. rewrite <- Zle_Qle in Ms2, Me2.
    change (2 ^ 52)%Z with 4503599627370496%Z. subst D. lia. }
  assert (HN : range_length s e i = ((D - 1) / i + 1)%Z).
  { unfold range_length.
    destruct (Z.ltb_spec 0 i) as [_ | ?]; [| lia].
    destruct (Z.leb_spec e s) as [? | _]; [lia | reflexivity]. }
  rewrite HN. set (N := ((D - 1) / i + 1)%Z).
  pose proof (Z.div_mod (D - 1) i ltac:(lia)) as Hdm.
  pose proof (Z.mod_pos_bound (D - 1) i ltac:(lia)) as Hm.
  assert (HNpos : (0 < N)%Z).
  { subst N. assert (0 <= (D - 1) / i)%Z by (apply Z.div_pos; lia). lia. }
  assert (Hlo : ((N - 1) * i + 1 <= D)%Z) by (subst N; nia).
  assert (Hhi : (D <= N * i)%Z) by (subst N; nia).
  assert (HND : (N <= D)%Z) by nia.
  (* the advertised count, unfolded *)
  assert (Hq54 : - 2 ^ 54 <= inject_Z D / inject_Z i <= 2 ^ 54).
  { assert (Hi1 : 1 <= inject_Z i).
    { change 1 with (inject_Z 1). rewrite <- Zle_Qle. lia. }
    assert (HD0 : 0 <= inject_Z D).
    { change 0 with (inject_Z 0). rewrite <- Zle_Qle. lia. }
    destruct (div_by_ge1 (inject_Z D) (inject_Z i) Hi1 HD0) as [H1 H2].
    assert (HD2 : inject_Z D <= 4503599627370496).
    { change 4503599627370496 with (inject_Z 4503599627370496).
      rewrite <- Zle_Qle. change (2 ^ 52)%Z with 4503599627370496%Z in HD. lia. }
    rewrite pow2_54. split; lra. }
  assert (HT' : max_count_of (PInt s) (PInt e) i
                = Ok (Qceiling (round_Q (inject_Z D / inject_Z i)))).
  { unfold max_count_of. cbn [PyNum.sub bind truediv].
    destruct (Z.eqb_spec i 0) as [? | _]; [lia |].
    fold D. rewrite (rnd_finite _ Hq54). reflexivity. }
  rewrite HT in HT'. injection HT' as ->.
  set (q := inject_Z D / inject_Z i) in *.
  assert (Hipos : 0 < inject_Z i).
  { change 0 with (inject_Z 0). rewrite <- Zlt_Qlt. lia. }
  assert (Hqi : q * inject_Z i == inject_Z D).
  { subst q. field. lra. }
  apply Z.le_antisymm.
  - (* not above N *)
    destruct (Z.eq_dec D (N * i)) as [Heq | Hne].
    + assert (HqN : q == inject_Z N).
      { subst q. rewrite Heq, inject_Z_mult. field. lra. }
      assert (Hqpos : 0 < q).
      { rewrite HqN. change 0 with (inject_Z 0). now rewrite <- Zlt_Qlt. }
      rewrite (round_Q_pos q Hqpos).
      rewrite (Qceiling_comp _ _ (round_pos_integer q N HqN
                 ltac:(change (2 ^ 53)%Z with 9007199254740992%Z;
                       change (2 ^ 52)%Z with 4503599627370496%Z in HD; lia))).
      rewrite Qceiling_Z. lia.
    + assert (Hstrict : (D + 1 <= N * i)%Z) by lia.
      assert (Hq1 : 2 ^ (-1022) <= q).
      { assert (Hsmall : 2 ^ (-1022) <= 2 ^ (-54)) by now apply pow2_le.
        assert (E54 : 2 ^ (-54) == 1 # 18014398509481984) by reflexivity.
        rewrite E54 in Hsmall.
        assert (Hq0 : 0 <= q).
        { subst q. apply Qle_shift_div_l; [exact Hipos |].
          rewrite Qmult_0_l. change 0 with (inject_Z 0). rewrite <- Zle_Qle. lia. }
        assert (Hi53 : inject_Z i <= 9007199254740992).
        { change 9007199254740992 with (inject_Z 9007199254740992).
          rewrite <- Zle_Qle. change (2 ^ 53)%Z with 9007199254740992%Z in Hi. lia. }
        assert (Hm1 : q * inject_Z i <= q * 9007199254740992).
        { rewrite (Qmult_comm q), (Qmult_comm q). now apply Qmult_le_compat_r. }
        assert (HD1 : 1 <= inject_Z D).
        { change 1 with (inject_Z 1). rewrite <- Zle_Qle. lia. }
        revert Hsmall Hq0 Hqi Hm1 HD1.
        generalize (2 ^ (-1022)), (q * inject_Z i), (inject_Z D). intros; lra. }
      pose proof (round_Q_upper q Hq1) as Hup.
      assert (HqN : q + q * eps <= inject_Z N).
      { apply Qnot_lt_le. intros Hc.
        assert (Hmul : inject_Z N * inject_Z i < (q + q * eps) * inject_Z i).
        { apply Qmult_lt_compat_r; assumption. }
        assert (E : (q + q * eps) * inject_Z i == inject_Z D + inject_Z D * eps).
        { rewrite <- Hqi. ring. }
        rewrite E in Hmul.
        assert (HNi : inject_Z D + 1 <= inject_Z N * inject_Z i).
        { rewrite <- inject_Z_mult. change 1 with (inject_Z 1).
          rewrite <- inject_Z_plus, <- Zle_Qle. exact Hstrict. }
        assert (HD2 : inject_Z D <= 4503599627370496).
        { change 4503599627370496 with (inject_Z 4503599627370496).
          rewrite <- Zle_Qle. change (2 ^ 52)%Z with 4503599627370496%Z in HD. lia. }
        unfold eps in Hmul.
        revert Hmul HNi HD2. generalize (inject_Z N * inject_Z i), (inject_Z D).
        intros; lra. }
      rewrite <- (Qceiling_Z N). apply Qceiling_resp_le. lra.
  - (* not below N *)
    assert (N - 1 < Qceiling (round_Q q))%Z; [| lia].
    apply Hlow; [lia |].
    assert (H : inject_Z ((N - 1) * i + 1) <= inject_Z D) by (rewrite <- Zle_Qle; lia).
    rewrite inject_Z_plus, inject_Z_mult in H. change (inject_Z 1) with 1 in H.
    subst D. unfold Z.sub in H at 2. rewrite inject_Z_plus, inject_Z_opp in H. lra.
Qed.

End ExactCounts.

Section ScheduleExtras.

Import Py Bounds.



(** X19: between two integer times (literal start and end) of modest size,
    with [end > start] and [0 < interval < 2^53], the advertised count is
    exactly the number of scheduled entries. *)
Theorem integer_range_count_is_exact (s e interval : Z) :
  modest (inject_Z s) -> modest (inject_Z e) -> s < e -> 0 < interval < 2 ^ 53 ->
  exists entries,
    schedule (PInt s) (PInt e) interval = Ok entries
    /\ max_count_of (PInt s) (PInt e) interval = Ok (Z.of_nat (List.length entries)).
Proof.
  intros Ms Me Hlt Hi.
  exists (List.map (fun k => (k + 1, s + k * interval)) (Zseq (range_length s e interval))).
  split.
  - rewrite (schedule_value (PInt s) (PInt e) (inject_Z s) (inject_Z e) interval
               eq_refl eq_refl) by lia.
    now rewrite Qceiling_Z, Qfloor_Z.
  - rewrite length_map, Zseq_length, Z2Nat.id
      by apply (range_length_spec s e interval (proj1 Hi)).
    now apply max_count_of_integers.
Qed.

Lemma integer_range_count_is_exact_witness :
  exists entries,
    schedule (PInt 0) (PInt 61) 20 = Ok entries
    /\ max_count_of (PInt 0) (PInt 61) 20 = Ok (Z.of_nat (List.length entries)).
Proof.
  apply (integer_range_count_is_exact 0 61 20); try (split; discriminate); lia.
Defined.

(** Between fractional times the two counts can differ: from 0.5 to 10.5
    with interval 1, ten are advertised and nine are scheduled. *)
Example fractional_range_counts :
  max_count_of (PFloat (Fin (1 # 2))) (PFloat (Fin (21 # 2))) 1 = Ok 10
  /\ exists entries,
       schedule (PFloat (Fin (1 # 2))) (PFloat (Fin (21 # 2))) 1 = Ok entries
       /\ List.length entries = 9%nat.
Proof. split; [vm_compute; reflexivity | eexists; split; reflexivity]. Qed.

End ScheduleExtras.

(** ** Sample runs *)

Lemma run_extracts_every_entry_witness :
  Worlds.run_with Samples.probe Samples.run_ok Worlds.first_minute
  = ([probed "video.mkv"; mkdir "./screenshots"]
     ++ RunSpec.summary_lines Worlds.first_minute "./screenshots" (PInt 0) (PInt 61) 4
     ++ RunSpec.extraction_events Samples.stem Samples.joinpath "video.mkv"
          "./screenshots" 4 [(1, 0); (2, 20); (3, 40); (4, 60)],
     returned).
Proof.
  apply (run_extracts_every_entry Samples.stem Samples.parent Samples.joinpath
           Samples.probe Samples.mkdir_ok Samples.run_ok Worlds.first_minute
           {| chapters := Samples.two_chapters; duration := Fin 300 |}
           (PInt 0) (PInt 61) 4 [(1, 0); (2, 20); (3, 40); (4, 60)]).
  - repeat split; vm_compute; reflexivity.
  - reflexivity.
  - repeat constructor.
Defined.

Lemma run_stops_at_failed_extraction_witness :
  Worlds.run_with Samples.probe Worlds.fails_at_40 Worlds.first_minute
  = (([probed "video.mkv"; mkdir "./screenshots"]
      ++ RunSpec.summary_lines Worlds.first_minute "./screenshots" (PInt 0) (PInt 61) 4
      ++ RunSpec.extraction_events Samples.stem Samples.joinpath "video.mkv"
           "./screenshots" 4 ([(1, 0); (2, 20)] ++ [(3, 40)]))
     ++ [error_printed ffmpeg_Error],
     exited 1).
Proof.
  apply (run_stops_at_failed_extraction Samples.stem Samples.parent Samples.joinpath
           Samples.probe Samples.mkdir_ok Worlds.fails_at_40 Worlds.first_minute
           {| chapters := Samples.two_chapters; duration := Fin 300 |}
           (PInt 0) (PInt 61) 4 [(1, 0); (2, 20)] [(4, 60)] (3, 40)).
  - repeat split; vm_compute; reflexivity.
  - reflexivity.
  - repeat constructor.
  - reflexivity.
Defined.

Lemma listing_prints_every_chapter_witness :
  Worlds.run_with Samples.probe Samples.run_ok Worlds.listing
  = (probed "video.mkv"
       :: List.map RunSpec.listing_line (Py.enumerate Samples.two_chapters 1),
     exited 0).
Proof.
  apply (listing_prints_every_chapter Samples.stem Samples.parent Samples.joinpath
           Samples.probe Samples.mkdir_ok Samples.run_ok Worlds.listing
           {| chapters := Samples.two_chapters; duration := Fin 300 |});
    try reflexivity.
  repeat constructor; discriminate.
Defined.

Lemma listing_stops_at_missing_tags_witness :
  Worlds.run_with Worlds.probe_tagless Samples.run_ok Worlds.listing
  = ((probed "video.mkv"
        :: List.map RunSpec.listing_line (Py.enumerate [Samples.intro] 1))
     ++ [error_printed KeyError],
     exited 1).
Proof.
  apply (listing_stops_at_missing_tags Samples.stem Samples.parent Samples.joinpath
           Worlds.probe_tagless Samples.mkdir_ok Samples.run_ok Worlds.listing
           {| chapters := [Samples.intro; Worlds.tagless; Samples.main];
              duration := Fin 300 |}
           [Samples.intro] [Samples.main] Worlds.tagless);
    try reflexivity.
  repeat constructor; discriminate.
Defined.

Lemma mkdir_only_after_probe_witness :
  "./screenshots" = out_path_of Samples.parent Samples.joinpath Samples.from_50_to_30
  /\ (exists p, Samples.probe (Args.in_file Samples.from_50_to_30) = Ok p)
  /\ Args.print_chapters Samples.from_50_to_30 = false
  /\ Forall (fun ev => RunSpec.is_mkdir ev = false) ([probed "video.mkv"] ++ []).
Proof.
  apply (mkdir_only_after_probe Samples.stem Samples.parent Samples.joinpath
           Samples.probe Samples.mkdir_ok Samples.run_ok Samples.from_50_to_30
           [probed "video.mkv"] [] "./screenshots").
  vm_compute. reflexivity.
Defined.

Lemma end_title_not_found_fails_witness :
  Worlds.run_with Samples.probe Samples.run_ok Worlds.to_missing_chapter
  = ([probed "video.mkv"; mkdir "./screenshots"; error_printed TypeError], exited 1).
Proof.
  apply (end_title_not_found_fails Samples.stem Samples.parent Samples.joinpath
           Samples.probe Samples.mkdir_ok Samples.run_ok Worlds.to_missing_chapter
           {| chapters := Samples.two_chapters; duration := Fin 300 |}
           (PInt 0) "Credits");
    try reflexivity; try discriminate.
  repeat constructor; eexists; (split; [reflexivity | discriminate]).
Defined.

Lemma zero_interval_fails_witness :
  Worlds.run_with Samples.probe Samples.run_ok Worlds.zero_interval
  = ([probed "video.mkv"; mkdir "./screenshots"; error_printed ZeroDivisionError],
     exited 1).
Proof.
  apply (zero_interval_fails Samples.stem Samples.parent Samples.joinpath
           Samples.probe Samples.mkdir_ok Samples.run_ok Worlds.zero_interval
           {| chapters := Samples.two_chapters; duration := Fin 300 |}
           (PInt 0) (PFloat (Fin 300)) 0 300);
    try reflexivity; split; discriminate.
Defined.

Example run_endings_examples :
  snd (Worlds.run_with Samples.probe Samples.run_ok Worlds.plain) = returned
  /\ snd (Worlds.run_with Samples.probe Samples.run_ok Worlds.listing) = exited 0
  /\ Worlds.run_with Worlds.probe_fails Samples.run_ok Worlds.plain
     = ([probed "video.mkv"; error_printed ffmpeg_Error], exited 1).
Proof. repeat split; vm_compute; reflexivity. Qed.
